(** * OmniConvert: the conversion pipeline of [src/App.tsx]

    A shallow embedding of the format conversion pipeline (the component
    [App] of [src/App.tsx], with the types of [src/types.ts] and the
    interface of [src/services/geminiService.ts]) and the properties of
    its specification.

    JavaScript strings are sequences of UTF-16 code units; numbers that
    the code computes with ([pdfHeight], [heightLeft], [position]) are
    rationals. *)

From Stdlib Require Import Strings.String Strings.Ascii.
From Stdlib Require Import List NArith ZArith QArith Qround Bool Arith Lia Lqa.
Import ListNotations.

Set Implicit Arguments.

(* ================================================================== *)
(** * JavaScript strings *)
(* ================================================================== *)

Module JsString.

(** A UTF-16 code unit and a JavaScript string. *)
Definition char16 := N.
Definition jsstring := list char16.

(** ** Literals

    Source literals are written as Rocq strings, which hold the UTF-8
    bytes of the text; [js] decodes them into code units (a code point
    above U+FFFF becomes a surrogate pair). *)

Definition utf16_of_codepoint (cp : N) : jsstring :=
  if (cp <? 65536)%N then [cp]
  else let v := (cp - 65536)%N in
       [(55296 + v / 1024)%N; (56320 + v mod 1024)%N].

Fixpoint utf8_decode (pending : N) (need : nat) (bs : list N) : jsstring :=
  match bs with
  | [] => []
  | b :: bs' =>
    match need with
    | O =>
      if (b <? 128)%N then b :: utf8_decode 0 0 bs'
      else if (b <? 224)%N then utf8_decode (b - 192) 1 bs'
      else if (b <? 240)%N then utf8_decode (b - 224) 2 bs'
      else utf8_decode (b - 240) 3 bs'
    | S n =>
      let acc := (pending * 64 + (b - 128))%N in
      match n with
      | O => utf16_of_codepoint acc ++ utf8_decode 0 0 bs'
      | S _ => utf8_decode acc n bs'
      end
    end
  end.

Definition js (s : String.string) : jsstring :=
  utf8_decode 0 0 (map Ascii.N_of_ascii (String.list_ascii_of_string s)).
Arguments js s%_string.

(** Code units the code names. *)
Definition LF : char16 := 10%N.          (* line feed *)
Definition DQUOTE : char16 := 34%N.      (* double quote *)
Definition DOT : char16 := 46%N.         (* full stop *)
Definition SLASH : char16 := 47%N.       (* solidus *)
Definition LT : char16 := 60%N.          (* less-than sign *)
Definition GT : char16 := 62%N.          (* greater-than sign *)
Definition BOM : char16 := 65279%N.      (* U+FEFF *)

Fixpoint eqb (a b : jsstring) : bool :=
  match a, b with
  | [], [] => true
  | x :: a', y :: b' => (x =? y)%N && eqb a' b'
  | _, _ => false
  end.

(** [WhiteSpace] and [LineTerminator] of ECMAScript: what [\s] matches
    and what [String.prototype.trim] removes. *)
Definition isWhiteSpace (c : char16) : bool :=
  ((9 <=? c) && (c <=? 13) || (c =? 32) || (c =? 160) || (c =? 5760)
   || (8192 <=? c) && (c <=? 8202) || (c =? 8232) || (c =? 8233)
   || (c =? 8239) || (c =? 8287) || (c =? 12288) || (c =? 65279))%N.

(** ** [String.prototype.toLowerCase]

    The Unicode case conversion restricted to its ASCII range: [A]-[Z]
    become [a]-[z], every other code unit is kept.  The code lower-cases
    a file name only to test it for the suffix [.doc], and the target
    format names, which are ASCII; no code unit outside [A]-[Z]
    lower-cases to [.], [d], [o] or [c], so both uses are decided by this
    range. *)
Definition toLowerCase1 (c : char16) : char16 :=
  if ((65 <=? c) && (c <=? 90))%N then (c + 32)%N else c.

Definition toLowerCase (s : jsstring) : jsstring := map toLowerCase1 s.

(** ** [String.prototype.endsWith] *)
Definition endsWith (s suffix : jsstring) : bool :=
  (length suffix <=? length s)%nat
  && eqb (skipn (length s - length suffix) s) suffix.

(** ** [String.prototype.split] with a separator of one code unit *)
Fixpoint split (sep : char16) (s : jsstring) : list jsstring :=
  match s with
  | [] => [[]]
  | c :: s' =>
    if (c =? sep)%N then [] :: split sep s'
    else match split sep s' with
         | part :: parts => (c :: part) :: parts
         | [] => [[c]]
         end
  end.

(** ** [String.prototype.trim] *)
Fixpoint trimStart (s : jsstring) : jsstring :=
  match s with
  | c :: s' => if isWhiteSpace c then trimStart s' else s
  | [] => []
  end.

Definition trimEnd (s : jsstring) : jsstring := rev (trimStart (rev s)).

Definition trim (s : jsstring) : jsstring := trimEnd (trimStart s).

(** [String.prototype.includes]. *)
Fixpoint startsWith (s prefix : jsstring) : bool :=
  match prefix, s with
  | [], _ => true
  | p :: prefix', c :: s' => (c =? p)%N && startsWith s' prefix'
  | _ :: _, [] => false
  end.

Fixpoint includes (s sub : jsstring) : bool :=
  startsWith s sub || match s with
                      | [] => false
                      | _ :: s' => includes s' sub
                      end.

End JsString.

(* ================================================================== *)
(** * Regular expressions of the encoders *)
(* ================================================================== *)

Module RegExp.
Import JsString.

(** The patterns of the source are sequences of one-code-unit classes,
    each with a quantifier; all quantifiers are greedy and the matcher
    backtracks as the ECMAScript one does. *)
Inductive quant := Once | Maybe | Many0 | Many1.   (* x  x?  x*  x+ *)

Record atom := Atom { cls : char16 -> bool; qnt : quant }.

Definition regexp := list atom.

(** One code unit of the class, then [k]. *)
Definition matchOne (c : char16 -> bool) (k : jsstring -> option nat)
           (s : jsstring) : option nat :=
  match s with
  | x :: s' => if c x then option_map S (k s') else None
  | [] => None
  end.

(** As many code units of the class as there are, then [k]; one fewer
    when [k] fails behind them, and so on. *)
Fixpoint matchStar (c : char16 -> bool) (k : jsstring -> option nat)
         (s : jsstring) : option nat :=
  match s with
  | x :: s' =>
    if c x
    then match matchStar c k s' with
         | Some n => Some (S n)
         | None => k s
         end
    else k s
  | [] => k s
  end.

(** [matchLen re s]: the number of code units the first match of [re]
    at the start of [s] consumes. *)
Fixpoint matchLen (re : regexp) : jsstring -> option nat :=
  match re with
  | [] => fun _ => Some O
  | a :: re' =>
    let k := matchLen re' in
    match qnt a with
    | Once => matchOne (cls a) k
    | Maybe => fun s => match matchOne (cls a) k s with
                        | Some n => Some n
                        | None => k s
                        end
    | Many0 => matchStar (cls a) k
    | Many1 => matchOne (cls a) (matchStar (cls a) k)
    end
  end.

(** [s.replace(re, rep)] for a pattern with the [g] flag: matches are
    looked for from left to right, a match is replaced and the search
    goes on behind it; after an empty match the search moves on by one
    code unit.  [skip] counts the code units of the current match that
    are still to be dropped. *)
Fixpoint replaceFrom (re : regexp) (rep : jsstring) (skip : nat)
         (s : jsstring) : jsstring :=
  match s with
  | [] =>
    match skip, matchLen re [] with
    | O, Some O => rep
    | _, _ => []
    end
  | c :: s' =>
    match skip with
    | S n => replaceFrom re rep n s'
    | O =>
      match matchLen re s with
      | Some (S n) => rep ++ replaceFrom re rep n s'
      | Some O => rep ++ c :: replaceFrom re rep O s'
      | None => c :: replaceFrom re rep O s'
      end
    end
  end.

Definition replace (re : regexp) (rep : jsstring) (s : jsstring) : jsstring :=
  replaceFrom re rep O s.

(** [re.test(s)]: is there a match anywhere in [s]. *)
Fixpoint test (re : regexp) (s : jsstring) : bool :=
  match matchLen re s with
  | Some _ => true
  | None => match s with
            | [] => false
            | _ :: s' => test re s'
            end
  end.

(** Classes.  With the [i] flag a pattern character matches the code
    units that canonicalize to the same one; for an ASCII pattern
    character these are its two ASCII cases only (a code unit outside
    ASCII never canonicalizes into ASCII). *)
Definition canonicalize (c : char16) : char16 :=
  if ((97 <=? c) && (c <=? 122))%N then (c - 32)%N else c.

Definition chr (p : char16) : char16 -> bool := fun c => (c =? p)%N.
Definition chr_i (p : char16) : char16 -> bool :=
  fun c => (canonicalize c =? canonicalize p)%N.
Definition notchr (p : char16) : char16 -> bool := fun c => negb (c =? p)%N.

(** A literal pattern, with or without the [i] flag. *)
Definition lit (s : String.string) : regexp := map (fun p => Atom (chr p) Once) (js s).
Definition lit_i (s : String.string) : regexp := map (fun p => Atom (chr_i p) Once) (js s).
Arguments lit s%_string.
Arguments lit_i s%_string.

End RegExp.

(* ================================================================== *)
(** * Types of [src/types.ts] *)
(* ================================================================== *)

Module Types.
Import JsString.

Inductive FileFormat := PDF | DOCX | TXT | JPG | PNG | MD.

(** The string a [FileFormat] is at run time. *)
Definition formatName (f : FileFormat) : jsstring :=
  match f with
  | PDF => js "PDF" | DOCX => js "DOCX" | TXT => js "TXT"
  | JPG => js "JPG" | PNG => js "PNG" | MD => js "MD"
  end.

Definition FileFormat_eqb (a b : FileFormat) : bool :=
  match a, b with
  | PDF, PDF | DOCX, DOCX | TXT, TXT | JPG, JPG | PNG, PNG | MD, MD => true
  | _, _ => false
  end.

(** A browser [File]: the fields the code reads, and its bytes. *)
Record File := mkFile {
  file_name : jsstring;
  file_size : N;
  file_type : jsstring;
  file_bytes : list N
}.

Record AppFile := mkAppFile {
  id : jsstring;
  name : jsstring;
  size : N;
  type : jsstring;
  blob : File
}.

Inductive Status := idle | uploading | converting | completed | error.

(** An object URL, as [URL.createObjectURL] issues them. *)
Definition ObjectURL := nat.

Record ConversionState := mkConversion {
  status : Status;
  progress : N;
  error_ : option jsstring;          (* error? *)
  resultUrl : option ObjectURL;      (* resultUrl? *)
  resultName : option jsstring       (* resultName? *)
}.

Definition Status_eqb (a b : Status) : bool :=
  match a, b with
  | idle, idle | uploading, uploading | converting, converting
  | completed, completed | error, error => true
  | _, _ => false
  end.

End Types.

(* ================================================================== *)
(** * Text-family encoders ([startConversion], lines 106-145) *)
(* ================================================================== *)

Module Encoder.
Import JsString RegExp.

Notation "s |> f" := (f s) (at level 50, left associativity, only parsing).

(** The patterns, named after the tag they match. *)
Definition re_h1_open : regexp := lit_i "<h1>".            (* /<h1>/gi *)
Definition re_h1_close : regexp := lit_i "</h1>".          (* /<\/h1>/gi *)
Definition re_h2_open : regexp := lit_i "<h2>".            (* /<h2>/gi *)
Definition re_h2_close : regexp := lit_i "</h2>".          (* /<\/h2>/gi *)
Definition re_p_open : regexp := lit_i "<p>".              (* /<p>/gi *)
Definition re_p_close : regexp := lit_i "</p>".            (* /<\/p>/gi *)
Definition re_br : regexp :=                               (* /<br\s*\/?>/gi *)
  lit_i "<br" ++ [Atom isWhiteSpace Many0; Atom (chr_i SLASH) Maybe;
                  Atom (chr_i GT) Once].
Definition re_li_open : regexp := lit_i "<li>".            (* /<li>/gi *)
Definition re_li_close : regexp := lit_i "</li>".          (* /<\/li>/gi *)
Definition re_tag : regexp :=                              (* /<[^>]+>/g *)
  [Atom (chr LT) Once; Atom (notchr GT) Many1; Atom (chr GT) Once].

(** The distance behind the next [>], if there is one: what
    [[^>]*>] consumes. *)
Fixpoint untilGT (s : jsstring) : option nat :=
  match s with
  | [] => None
  | c :: s' => if (c =? GT)%N then Some 1%nat else option_map S (untilGT s')
  end.

(** Target MD. *)
Definition encodeMD (htmlContent : jsstring) : jsstring :=
  htmlContent
  |> replace re_h1_open (js "# ")
  |> replace re_h1_close [LF; LF]
  |> replace re_h2_open (js "## ")
  |> replace re_h2_close [LF; LF]
  |> replace re_p_open []
  |> replace re_p_close [LF; LF]
  |> replace re_br [LF]
  |> replace re_li_open (js "* ")
  |> replace re_li_close [LF]
  |> replace re_tag [].

(** Target TXT (the final [else] branch). *)
Definition encodeTXT (htmlContent : jsstring) : jsstring :=
  htmlContent
  |> replace re_br [LF]
  |> replace re_p_close [LF]
  |> replace re_tag []
  |> trim.

(** Target DOCX: the fragment inside an Office HTML envelope. *)
Definition docxHead : jsstring :=
  LF :: js "          <html xmlns:o='urn:schemas-microsoft-com:office:office' xmlns:w='urn:schemas-microsoft-com:office:word' xmlns='http://www.w3.org/TR/REC-html40'>
          <head>
            <meta charset=" ++ [DQUOTE] ++ js "utf-8" ++ [DQUOTE] ++ js ">
            <title>Converted Document</title>
            <!--[if gte mso 9]>
            <xml><w:WordDocument><w:View>Print</w:View><w:Zoom>100</w:Zoom></w:WordDocument></xml>
            <![endif]-->
            <style>
              body { font-family: 'Calibri', 'Arial', sans-serif; font-size: 11pt; }
              p { margin-bottom: 8pt; line-height: 1.2; }
            </style>
          </head>
          <body>".

Definition docxTail : jsstring :=
  js "</body>
          </html>".

Definition docxContent (htmlContent : jsstring) : jsstring :=
  docxHead ++ htmlContent ++ docxTail.

End Encoder.

(* ================================================================== *)
(** * Fragments as sequences of tags and text *)
(* ================================================================== *)

Module Fragment.
Import JsString RegExp Encoder.

(** A fragment whose every [<] opens a tag and whose every [>] closes
    one is a sequence of tags and of text between them. *)
Inductive token :=
| Text (s : jsstring)
| Tag (body : jsstring).          (* what stands between < and > *)

Definition render1 (t : token) : jsstring :=
  match t with
  | Text s => s
  | Tag body => LT :: body ++ [GT]
  end.

Definition render (ts : list token) : jsstring := flat_map render1 ts.

(** Free of [<] and [>]. *)
Definition plain (s : jsstring) : bool :=
  forallb (fun c => negb (c =? LT)%N && negb (c =? GT)%N) s.

Definition wellFormed (t : token) : bool :=
  match t with
  | Text s => plain s
  | Tag body => plain body && negb (length body =? 0)%nat
  end.

(** The pattern matches the whole of [s]. *)
Definition fullMatch (re : regexp) (s : jsstring) : bool :=
  match matchLen re s with
  | Some n => (n =? length s)%nat
  | None => false
  end.

(** The tags of the allowlist {h1, h2, p, br, ul, li, strong}, in the
    spellings the patterns of the encoders accept. *)
Definition allowlist : list regexp :=
  [ re_h1_open; re_h1_close; re_h2_open; re_h2_close; re_p_open; re_p_close;
    re_br; lit_i "<ul>"; lit_i "</ul>"; re_li_open; re_li_close;
    lit_i "<strong>"; lit_i "</strong>" ].

Definition allowlisted (t : token) : bool :=
  wellFormed t
  && match t with
     | Text _ => true
     | Tag _ => existsb (fun re => fullMatch re (render1 t)) allowlist
     end.

(** What the Markdown encoder makes of a tag or a text. *)
Definition md_of_token (t : token) : jsstring :=
  match t with
  | Text s => s
  | Tag _ =>
    let tag := render1 t in
    if fullMatch re_h1_open tag then js "# "
    else if fullMatch re_h1_close tag then [LF; LF]
    else if fullMatch re_h2_open tag then js "## "
    else if fullMatch re_h2_close tag then [LF; LF]
    else if fullMatch re_p_open tag then []
    else if fullMatch re_p_close tag then [LF; LF]
    else if fullMatch re_br tag then [LF]
    else if fullMatch re_li_open tag then js "* "
    else if fullMatch re_li_close tag then [LF]
    else []
  end.

(** What the Plain-Text encoder makes of it, before the trim. *)
Definition txt_of_token (t : token) : jsstring :=
  match t with
  | Text s => s
  | Tag _ =>
    let tag := render1 t in
    if fullMatch re_br tag then [LF]
    else if fullMatch re_p_close tag then [LF]
    else []
  end.

(** The shape of all patterns of the encoders: [<], then classes that
    do not accept [>], then [>]. *)
Definition TagShaped (re : regexp) : Prop :=
  exists (f : char16 -> bool) (mid : regexp) (l : char16 -> bool),
    re = Atom f Once :: mid ++ [Atom l Once]
    /\ (forall x, f x = true -> x = LT)
    /\ (forall x, l x = true -> x = GT)
    /\ l GT = true
    /\ Forall (fun a => cls a GT = false) mid.

(** A continuation of the matcher that, behind the inside of a tag,
    matches up to the [>] that closes it or not at all, whatever
    follows. *)
Definition GoodCont (k : jsstring -> option nat) : Prop :=
  forall body rest, ~ In GT body ->
    k (body ++ GT :: rest) = k (body ++ [GT])
    /\ forall n, k (body ++ [GT]) = Some n -> n = S (length body).

(** One pass of [replace] on a token. *)
Definition substitute (re : regexp) (rep : jsstring) (t : token) : token :=
  match t with
  | Text _ => t
  | Tag _ => if fullMatch re (render1 t) then Text rep else t
  end.

(** All passes of an encoder on a token. *)
Definition md_pass (t : token) : token :=
  t |> substitute re_h1_open (js "# ")
    |> substitute re_h1_close [LF; LF]
    |> substitute re_h2_open (js "## ")
    |> substitute re_h2_close [LF; LF]
    |> substitute re_p_open []
    |> substitute re_p_close [LF; LF]
    |> substitute re_br [LF]
    |> substitute re_li_open (js "* ")
    |> substitute re_li_close [LF]
    |> substitute re_tag [].

Definition txt_pass (t : token) : token :=
  t |> substitute re_br [LF]
    |> substitute re_p_close [LF]
    |> substitute re_tag [].

(** The text a payload carries: its code units that are neither white
    space nor the marker characters [#] and [*]. *)
Definition isMarker (c : char16) : bool := ((c =? 35) || (c =? 42))%N.

Definition content (s : jsstring) : jsstring :=
  filter (fun c => negb (isWhiteSpace c || isMarker c)) s.

(** Following the words of the specification: the Markdown output
    with the markdown syntax ([# ], [## ], [* ]) stripped, and the
    Plain-Text output with header markers removed. *)
Definition stripMarkdownSyntax (md : jsstring) : jsstring :=
  md |> replace (lit "## ") [] |> replace (lit "# ") [] |> replace (lit "* ") [].

Definition removeHeaderMarkers (txt : jsstring) : jsstring :=
  txt |> replace (lit "## ") [] |> replace (lit "# ") [].

(** The scenario of the specification for the target MD. *)
Definition scenarioTokens : list token :=
  [ Tag (js "h1"); Text (js "Title"); Tag (js "/h1");
    Tag (js "p"); Text (js "Line one"); Tag (js "br/"); Text (js "Line two");
    Tag (js "/p") ].

End Fragment.

(* ================================================================== *)
(** * PDF pagination ([startConversion], lines 79-98) *)
(* ================================================================== *)

Module Pdf.
Import JsString.
Local Open Scope Q_scope.

(** The canvas [html2canvas] yields.  The rendered root has the fixed
    CSS width 794px, so the canvas never has width 0. *)
Record Canvas := mkCanvas {
  canvas_width : positive;
  canvas_height : N
}.

(** [canvas.toDataURL(mime, quality)]. *)
Record DataURL := mkDataURL {
  data_mime : jsstring;
  data_quality : Q;
  data_canvas : Canvas
}.

Definition toDataURL (canvas : Canvas) (mime : jsstring) (quality : Q) : DataURL :=
  mkDataURL mime quality canvas.

(** A jsPDF document: its page size and, page by page, the images
    placed on it.  A new document has one page, and [addImage] draws on
    the page added last. *)
Record Placement := mkPlacement {
  imageData : DataURL;
  imageFormat : jsstring;
  pos_x : Q;
  pos_y : Q;
  img_w : Q;
  img_h : Q
}.

Record jsPDF := mk_jsPDF {
  pageSize_width : Q;
  pageSize_height : Q;
  pages : list (list Placement)
}.

Definition new_jsPDF (pageWidth pageHeight : Q) : jsPDF :=
  mk_jsPDF pageWidth pageHeight [[]].

Definition getWidth (pdf : jsPDF) : Q := pageSize_width pdf.
Definition getHeight (pdf : jsPDF) : Q := pageSize_height pdf.

Fixpoint placeOnLast (pl : Placement) (ps : list (list Placement)) :=
  match ps with
  | [] => []
  | [page] => [page ++ [pl]]
  | page :: ps' => page :: placeOnLast pl ps'
  end.

Definition addImage (imgData : DataURL) (fmt : jsstring) (x y w h : Q)
           (pdf : jsPDF) : jsPDF :=
  mk_jsPDF (pageSize_width pdf) (pageSize_height pdf)
           (placeOnLast (mkPlacement imgData fmt x y w h) (pages pdf)).

Definition addPage (pdf : jsPDF) : jsPDF :=
  mk_jsPDF (pageSize_width pdf) (pageSize_height pdf) (pages pdf ++ [[]]).

(** The [while (heightLeft >= 0)] loop.  [None]: the fuel ran out. *)
Fixpoint addPages (fuel : nat) (imgData : DataURL)
         (pdfWidth pdfHeight pageHeight : Q)
         (heightLeft : Q) (pdf : jsPDF) : option jsPDF :=
  match fuel with
  | O => None
  | S fuel' =>
    if Qle_bool 0 heightLeft then
      let position := heightLeft - pdfHeight in
      let pdf := addPage pdf in
      let pdf := addImage imgData (js "JPEG") 0 position pdfWidth pdfHeight pdf in
      let heightLeft := heightLeft - pageHeight in
      addPages fuel' imgData pdfWidth pdfHeight pageHeight heightLeft pdf
    else Some pdf
  end.

(** Lines 83-97, from the image and the new document to the document
    with all its pages. *)
Definition paginate (fuel : nat) (imgData : DataURL) (canvas : Canvas)
           (pdf : jsPDF) : option jsPDF :=
  let pdfWidth := getWidth pdf in
  let pdfHeight :=
    (inject_Z (Z.of_N (canvas_height canvas)) * pdfWidth)
    / inject_Z (Zpos (canvas_width canvas)) in
  let heightLeft := pdfHeight in
  let position := 0 in
  let pageHeight := getHeight pdf in
  let pdf := addImage imgData (js "JPEG") 0 position pdfWidth pdfHeight pdf in
  let heightLeft := heightLeft - pageHeight in
  addPages fuel imgData pdfWidth pdfHeight pageHeight heightLeft pdf.

(** Fuel that is enough whenever the loop ends (see [paginate_fuel]);
    with a page height that is not positive the loop never ends once
    entered. *)
Definition pagesFuel (pdfHeight pageHeight : Q) : nat :=
  S (Z.to_nat (Qfloor (pdfHeight / pageHeight))).

Definition pdfHeightOf (canvas : Canvas) (pdf : jsPDF) : Q :=
  (inject_Z (Z.of_N (canvas_height canvas)) * getWidth pdf)
  / inject_Z (Zpos (canvas_width canvas)).

End Pdf.

(* ================================================================== *)
(** * The component [App] ([src/App.tsx]) *)
(* ================================================================== *)

Module App.
Import JsString RegExp Types Encoder Pdf.

(** ** Values of the browser *)

Inductive BlobPart :=
| StringPart (s : jsstring)
| PdfPart (pdf : jsPDF)
| DataPart (d : DataURL).

Record Blob := mkBlob {
  blob_parts : list BlobPart;
  blob_type : jsstring
}.

(** What [fetch] resolves to. *)
Record Response := mkResponse { res_url : DataURL }.

(** A thrown value or the reason of a rejected promise, as far as the
    [catch] clause looks at it: its [message], if it has one (an
    [Error] has, a thrown string has none).  The stages throw objects
    and strings; [null] and [undefined], of which [err.message] cannot
    be read, are not among the values. *)
Record Thrown := mkThrown { message : option jsstring }.

Definition Error (msg : jsstring) : Thrown := mkThrown (Some msg).

(** [a || b] on an optional string: [undefined] and the empty string
    are falsy. *)
Definition or_else (a : option jsstring) (b : jsstring) : jsstring :=
  match a with
  | Some (c :: s) => c :: s
  | _ => b
  end.

(** ** State

    The React state of [App], the hidden render container, the object
    URLs that are live ([URL.createObjectURL] / [URL.revokeObjectURL])
    and, as ghost state, the log of the calls of
    [reconstructContentToHtml].  [isDragging] and [fileInputRef] only
    drive the presentation and are left out. *)
Record World := mkWorld {
  file : option AppFile;
  targetFormat : FileFormat;
  conversion : ConversionState;
  previewHtml : jsstring;
  hiddenRender : option jsstring;           (* hiddenRenderRef.current, its innerHTML *)
  objectURLs : list (ObjectURL * Blob);
  issued : nat;                             (* object URLs issued so far *)
  extractorCalls : list (File * FileFormat)
}.

Definition setFile (v : option AppFile) (w : World) : World :=
  mkWorld v (targetFormat w) (conversion w) (previewHtml w) (hiddenRender w)
          (objectURLs w) (issued w) (extractorCalls w).

Definition setTargetFormat (v : FileFormat) (w : World) : World :=
  mkWorld (file w) v (conversion w) (previewHtml w) (hiddenRender w)
          (objectURLs w) (issued w) (extractorCalls w).

Definition setConversion (v : ConversionState) (w : World) : World :=
  mkWorld (file w) (targetFormat w) v (previewHtml w) (hiddenRender w)
          (objectURLs w) (issued w) (extractorCalls w).

Definition setPreviewHtml (v : jsstring) (w : World) : World :=
  mkWorld (file w) (targetFormat w) (conversion w) v (hiddenRender w)
          (objectURLs w) (issued w) (extractorCalls w).

Definition set_innerHTML (v : jsstring) (w : World) : World :=
  mkWorld (file w) (targetFormat w) (conversion w) (previewHtml w)
          (option_map (fun _ => v) (hiddenRender w))
          (objectURLs w) (issued w) (extractorCalls w).

Definition createObjectURL (b : Blob) (w : World) : World :=
  mkWorld (file w) (targetFormat w) (conversion w) (previewHtml w)
          (hiddenRender w) ((issued w, b) :: objectURLs w) (S (issued w))
          (extractorCalls w).

Definition revokeObjectURL (u : ObjectURL) (w : World) : World :=
  mkWorld (file w) (targetFormat w) (conversion w) (previewHtml w)
          (hiddenRender w)
          (filter (fun e => negb (fst e =? u)%nat) (objectURLs w))
          (issued w) (extractorCalls w).

Definition logExtractorCall (f : File) (fmt : FileFormat) (w : World) : World :=
  mkWorld (file w) (targetFormat w) (conversion w) (previewHtml w)
          (hiddenRender w) (objectURLs w) (issued w)
          (extractorCalls w ++ [(f, fmt)]).

(** [document.getElementById]: the element is there when the markup
    of the hidden container declares the id; the element is handed on
    as its markup. *)
Definition getElementById (elementId : jsstring) (w : World) : option jsstring :=
  match hiddenRender w with
  | Some html =>
    if includes html (js "id=" ++ [DQUOTE] ++ elementId ++ [DQUOTE])
    then Some html else None
  | None => None
  end.

(** ** Handlers that run to their end at once *)

Definition docRejected : jsstring :=
  js "不支持旧版 .doc 格式，请另存为 .docx 格式后再试。".

(** [handleFiles]; [rnd] is the string
    [Math.random().toString(36).substr(2, 9)] comes to. *)
Definition handleFiles (files : option (list File)) (rnd : jsstring)
           (w : World) : World :=
  match files with
  | None | Some [] => w
  | Some (selectedFile :: _) =>
    if endsWith (toLowerCase (file_name selectedFile)) (js ".doc") then
      setConversion (mkConversion error 0 (Some docRejected) None None) w
    else
      let newFile :=
        mkAppFile rnd (file_name selectedFile) (file_size selectedFile)
                  (file_type selectedFile) selectedFile in
      w |> setFile (Some newFile)
        |> setConversion (mkConversion idle 0 None None None)
        |> setPreviewHtml []
  end.

Definition reset (w : World) : World :=
  (match resultUrl (conversion w) with
   | Some u => revokeObjectURL u w
   | None => w
   end)
  |> setFile None
  |> setConversion (mkConversion idle 0 None None None)
  |> setPreviewHtml [].

(** Lines 54-55: the suggested name of the result. *)
Definition resultNameOf (fileName : jsstring) (fmt : FileFormat) : jsstring :=
  let fileNameBase :=
    match nth_error (split DOT fileName) 0 with
    | Some part => part
    | None => js "undefined"
    end in
  fileNameBase ++ js "." ++ toLowerCase (formatName fmt).

(** Lines 61-64: the markup written into the hidden container. *)
Definition renderMarkup (renderRootId htmlContent : jsstring) : jsstring :=
  LF :: js "        <div id=" ++ [DQUOTE] ++ renderRootId ++ [DQUOTE]
     ++ js " style=" ++ [DQUOTE]
     ++ js "padding: 50px; font-family: 'Inter', system-ui, sans-serif; line-height: 1.6; color: #1a1a1a; width: 794px; background: white; white-space: pre-wrap; word-wrap: break-word; font-size: 15px;"
     ++ [DQUOTE] ++ js ">
          " ++ htmlContent ++ js "
        </div>".

(** ** Asynchronous code

    [startConversion] is an [async] function: it runs until it awaits a
    promise, other handlers may run while it is suspended, and it goes
    on when the promise settles.  [Async A] is the tree of such a
    computation: reads and writes of the state, the calls it awaits,
    each with its continuation, and its three ends. *)
Inductive Async (A : Type) : Type :=
| Ret (a : A)
| Throw (e : Thrown)
| Hang                                   (* a loop that does not end *)
| Read (k : World -> Async A)
| Write (f : World -> World) (k : Async A)
| Await_reconstructContentToHtml
    (f : File) (fmt : FileFormat) (k : Thrown + jsstring -> Async A)
| Await_setTimeout (ms : N) (k : Async A)
| Await_html2canvas (element : jsstring) (k : Thrown + Canvas -> Async A)
| Call_jsPDF (k : Thrown + jsPDF -> Async A)      (* new jsPDF('p', 'mm', 'a4') *)
| Await_fetch (dataUrl : DataURL) (k : Thrown + Response -> Async A)
| Await_blob (res : Response) (k : Thrown + Blob -> Async A).

Arguments Ret {A} a.
Arguments Throw {A} e.
Arguments Hang {A}.
Arguments Read {A} k.
Arguments Write {A} f k.
Arguments Await_reconstructContentToHtml {A} f fmt k.
Arguments Await_setTimeout {A} ms k.
Arguments Await_html2canvas {A} element k.
Arguments Call_jsPDF {A} k.
Arguments Await_fetch {A} dataUrl k.
Arguments Await_blob {A} res k.

Fixpoint bind {A B : Type} (m : Async A) (g : A -> Async B) : Async B :=
  match m with
  | Ret a => g a
  | Throw e => Throw e
  | Hang => Hang
  | Read k => Read (fun w => bind (k w) g)
  | Write f k => Write f (bind k g)
  | Await_reconstructContentToHtml f fmt k =>
    Await_reconstructContentToHtml f fmt (fun r => bind (k r) g)
  | Await_setTimeout ms k => Await_setTimeout ms (bind k g)
  | Await_html2canvas el k => Await_html2canvas el (fun r => bind (k r) g)
  | Call_jsPDF k => Call_jsPDF (fun r => bind (k r) g)
  | Await_fetch d k => Await_fetch d (fun r => bind (k r) g)
  | Await_blob res k => Await_blob res (fun r => bind (k r) g)
  end.

(** [try { m } catch (err) { h err }]. *)
Fixpoint tryCatch {A : Type} (m : Async A) (h : Thrown -> Async A) : Async A :=
  match m with
  | Ret a => Ret a
  | Throw e => h e
  | Hang => Hang
  | Read k => Read (fun w => tryCatch (k w) h)
  | Write f k => Write f (tryCatch k h)
  | Await_reconstructContentToHtml f fmt k =>
    Await_reconstructContentToHtml f fmt (fun r => tryCatch (k r) h)
  | Await_setTimeout ms k => Await_setTimeout ms (tryCatch k h)
  | Await_html2canvas el k => Await_html2canvas el (fun r => tryCatch (k r) h)
  | Call_jsPDF k => Call_jsPDF (fun r => tryCatch (k r) h)
  | Await_fetch d k => Await_fetch d (fun r => tryCatch (k r) h)
  | Await_blob res k => Await_blob res (fun r => tryCatch (k r) h)
  end.

Declare Scope async_scope.
Delimit Scope async_scope with async.
Notation "x <- m ;; k" := (bind m (fun x => k))
  (at level 61, m at next level, right associativity) : async_scope.
Notation "m ;; k" := (bind m (fun _ => k))
  (at level 61, right associativity) : async_scope.

(** A settled promise throws at its [await] when it was rejected. *)
Definition settled {A : Type} (r : Thrown + A) : Async A :=
  match r with
  | inl e => Throw e
  | inr v => Ret v
  end.

Definition update (f : World -> World) : Async unit := Write f (Ret tt).
Definition get {A : Type} (f : World -> A) : Async A := Read (fun w => Ret (f w)).

Definition reconstructContentToHtml (f : File) (fmt : FileFormat) : Async jsstring :=
  Write (logExtractorCall f fmt) (Await_reconstructContentToHtml f fmt settled).
Definition setTimeout (ms : N) : Async unit := Await_setTimeout ms (Ret tt).
Definition html2canvas (element : jsstring) : Async Canvas :=
  Await_html2canvas element settled.
Definition jsPDF_a4 : Async jsPDF := Call_jsPDF settled.
Definition fetch (dataUrl : DataURL) : Async Response := Await_fetch dataUrl settled.
Definition res_blob (res : Response) : Async Blob := Await_blob res settled.

Definition URL_createObjectURL (b : Blob) : Async ObjectURL :=
  Read (fun w => Write (createObjectURL b) (Ret (issued w))).

Definition timeoutMessage : jsstring :=
  js "文件处理超时。请尝试更小的文件或刷新页面。".

(** [pdf.output('blob')]. *)
Definition output_blob (pdf : jsPDF) : Blob :=
  mkBlob [PdfPart pdf] (js "application/pdf").

Local Open Scope async_scope.

(** The body of the [try] of [startConversion], for the file and the
    target format of the closure. *)
Definition conversionBody (file : AppFile) (targetFormat : FileFormat)
  : Async unit :=
  (* 1. the HTML of the content *)
  htmlContent <- reconstructContentToHtml (blob file) targetFormat ;;
  update (setPreviewHtml htmlContent) ;;
  update (fun w => setConversion
            (let prev := conversion w in
             mkConversion (status prev) 50 (error_ prev) (resultUrl prev)
                          (resultName prev)) w) ;;
  let resultName := resultNameOf (name file) targetFormat in
  current <- get hiddenRender ;;
  (match current with
   | None => Throw (Error (js "渲染容器失效"))
   | Some _ => Ret tt
   end) ;;
  let renderRootId := js "render-root" in
  update (set_innerHTML (renderMarkup renderRootId htmlContent)) ;;
  setTimeout 800 ;;
  (* 2. the export, by target format *)
  finalBlob <-
    (match targetFormat with
     | PDF | JPG | PNG =>
       element <- get (getElementById renderRootId) ;;
       match element with
       | None => Throw (Error (js "导出节点丢失"))
       | Some element =>
         canvas <- html2canvas element ;;
         match targetFormat with
         | PDF =>
           let imgData := toDataURL canvas (js "image/jpeg") (95 # 100) in
           pdf <- jsPDF_a4 ;;
           match paginate (pagesFuel (pdfHeightOf canvas pdf) (getHeight pdf))
                          imgData canvas pdf with
           | Some pdf => Ret (output_blob pdf)
           | None => Hang
           end
         | _ =>
           let mime := match targetFormat with
                       | JPG => js "image/jpeg"
                       | _ => js "image/png"
                       end in
           let dataUrl := toDataURL canvas mime (9 # 10) in
           res <- fetch dataUrl ;;
           res_blob res
         end
       end
     | DOCX =>
       Ret (mkBlob [StringPart [BOM]; StringPart (docxContent htmlContent)]
                   (js "application/msword"))
     | MD =>
       Ret (mkBlob [StringPart (encodeMD htmlContent)]
                   (js "text/markdown;charset=utf-8"))
     | TXT =>
       Ret (mkBlob [StringPart (encodeTXT htmlContent)]
                   (js "text/plain;charset=utf-8"))
     end) ;;
  url <- URL_createObjectURL finalBlob ;;
  update (setConversion
            (mkConversion completed 100 None (Some url) (Some resultName))).

(** The targets of the raster path (line 69). *)
Definition isRaster (fmt : FileFormat) : bool :=
  match fmt with
  | PDF | JPG | PNG => true
  | _ => false
  end.

(** The [catch] clause. *)
Definition conversionFailed (err : Thrown) : Async unit :=
  update (setConversion
            (mkConversion error 0
                          (Some (or_else (message err) timeoutMessage))
                          None None)).

(** [startConversion]: [file] and [targetFormat] are those of the
    render the handler belongs to. *)
Definition startConversion : Async unit :=
  Read (fun self =>
    match file self with
    | None => Ret tt
    | Some file =>
      update (setConversion (mkConversion converting 10 None None None)) ;;
      tryCatch (conversionBody file (targetFormat self)) conversionFailed
    end).

Local Close Scope async_scope.

(** ** Running

    How the environment answers the calls of one attempt. *)
Record Answers := mkAnswers {
  ans_reconstructContentToHtml : Thrown + jsstring;
  ans_html2canvas : Thrown + Canvas;
  ans_jsPDF : Thrown + (Q * Q);            (* the page size of the new document *)
  ans_fetch : Thrown + Response;
  ans_blob : Thrown + Blob
}.

Definition answer_jsPDF (ans : Answers) : Thrown + jsPDF :=
  match ans_jsPDF ans with
  | inl e => inl e
  | inr (pageWidth, pageHeight) => inr (new_jsPDF pageWidth pageHeight)
  end.

Inductive Outcome := Returned | Uncaught (e : Thrown) | Hung.

Inductive Stage :=
| Finished (o : Outcome)
| Suspended (m : Async unit).

(** Run up to the next [await]. *)
Fixpoint advance (ans : Answers) (m : Async unit) (w : World) : World * Stage :=
  match m with
  | Ret _ => (w, Finished Returned)
  | Throw e => (w, Finished (Uncaught e))
  | Hang => (w, Finished Hung)
  | Read k => advance ans (k w) w
  | Write f k => advance ans k (f w)
  | Call_jsPDF k => advance ans (k (answer_jsPDF ans)) w
  | _ => (w, Suspended m)
  end.

(** The awaited promise settles. *)
Definition settle (ans : Answers) (m : Async unit) : Async unit :=
  match m with
  | Await_reconstructContentToHtml _ _ k => k (ans_reconstructContentToHtml ans)
  | Await_setTimeout _ k => k
  | Await_html2canvas _ k => k (ans_html2canvas ans)
  | Await_fetch _ k => k (ans_fetch ans)
  | Await_blob _ k => k (ans_blob ans)
  | _ => m
  end.

(** Run to the end, every promise settling as soon as it is awaited. *)
Fixpoint exec (ans : Answers) (m : Async unit) (w : World) : World * Outcome :=
  match m with
  | Ret _ => (w, Returned)
  | Throw e => (w, Uncaught e)
  | Hang => (w, Hung)
  | Read k => exec ans (k w) w
  | Write f k => exec ans k (f w)
  | Call_jsPDF k => exec ans (k (answer_jsPDF ans)) w
  | Await_reconstructContentToHtml _ _ k =>
    exec ans (k (ans_reconstructContentToHtml ans)) w
  | Await_setTimeout _ k => exec ans k w
  | Await_html2canvas _ k => exec ans (k (ans_html2canvas ans)) w
  | Await_fetch _ k => exec ans (k (ans_fetch ans)) w
  | Await_blob _ k => exec ans (k (ans_blob ans)) w
  end.

(** ** Sessions

    A session is the state, the attempts that are suspended at an
    [await], and whether the event loop is blocked by a loop that does
    not end. *)
Record Session := mkSession {
  world : World;
  inflight : list (Answers * Async unit);
  blocked : bool
}.

Definition initialWorld : World :=
  mkWorld None PDF (mkConversion idle 0 None None None) [] (Some []) [] 0 [].

Definition initial : Session := mkSession initialWorld [] false.

(** What the rendered page offers, from the JSX of [App]. *)
Definition isError (w : World) : bool := Status_eqb (status (conversion w)) error.

Definition showsDropZone (w : World) : bool :=
  match file w with
  | None => negb (isError w)
  | Some _ => false
  end.

Definition showsReset (w : World) : bool :=
  negb (showsDropZone w)
  && (isError w
      || negb (isError w) && Status_eqb (status (conversion w)) completed).

Definition showsStart (w : World) : bool :=
  negb (showsDropZone w) && negb (isError w)
  && Status_eqb (status (conversion w)) idle.

Definition formatEnabled (w : World) : bool :=
  negb (showsDropZone w) && negb (isError w)
  && negb (Status_eqb (status (conversion w)) converting
           || Status_eqb (status (conversion w)) completed).

Inductive Event :=
| SelectFiles (files : option (list File)) (rnd : jsstring)
| ClickFormat (fmt : FileFormat)
| ClickStart (ans : Answers)
| ClickReset
| Settle (i : nat).     (* the promise the [i]-th suspended attempt awaits *)

Definition resume (ans : Answers) (m : Async unit)
           (others : list (Answers * Async unit)) (w : World) : Session :=
  match advance ans m w with
  | (w', Suspended m') => mkSession w' (others ++ [(ans, m')]) false
  | (w', Finished Hung) => mkSession w' others true
  | (w', Finished _) => mkSession w' others false
  end.

Definition remove_nth {A : Type} (i : nat) (l : list A) : list A :=
  firstn i l ++ skipn (S i) l.

(** One event, when the page offers it. *)
Definition step (s : Session) (ev : Event) : option Session :=
  if blocked s then None else
  let w := world s in
  match ev with
  | SelectFiles files rnd =>
    if showsDropZone w
    then Some (mkSession (handleFiles files rnd w) (inflight s) false)
    else None
  | ClickFormat fmt =>
    if formatEnabled w
    then Some (mkSession (setTargetFormat fmt w) (inflight s) false)
    else None
  | ClickStart ans =>
    if showsStart w
    then Some (resume ans startConversion (inflight s) w)
    else None
  | ClickReset =>
    if showsReset w
    then Some (mkSession (reset w) (inflight s) false)
    else None
  | Settle i =>
    match nth_error (inflight s) i with
    | Some (ans, m) =>
      Some (resume ans (settle ans m) (remove_nth i (inflight s)) w)
    | None => None
    end
  end.

Inductive reachable : Session -> Prop :=
| reach_initial : reachable initial
| reach_step s ev s' : reachable s -> step s ev = Some s' -> reachable s'.

End App.

(* ================================================================== *)
(** * Invariants of a session *)
(* ================================================================== *)

Module Invariant.
Import JsString Types App.

(** A file that [handleFiles] accepts. *)
Definition accepted (f : File) : Prop :=
  endsWith (toLowerCase (file_name f)) (js ".doc") = false.

(** Only accepted files are held or were handed to the extractor. *)
Definition onlyAccepted (w : World) : Prop :=
  (forall f, file w = Some f -> accepted (blob f))
  /\ Forall (fun call => accepted (fst call)) (extractorCalls w).

(** The object URLs that are live. *)
Definition liveURLs (w : World) : list ObjectURL := map fst (objectURLs w).

(** The state while an attempt is in flight. *)
Definition Mid (w : World) : Prop :=
  status (conversion w) = converting
  /\ file w <> None
  /\ resultUrl (conversion w) = None
  /\ objectURLs w = []
  /\ onlyAccepted w.

(** The state while none is. *)
Definition Rest (w : World) : Prop :=
  status (conversion w) <> converting
  /\ liveURLs w = match resultUrl (conversion w) with
                  | Some u => [u]
                  | None => []
                  end
  /\ (resultUrl (conversion w) <> None ->
      status (conversion w) = completed /\ file w <> None)
  /\ onlyAccepted w.

(** The rest of an attempt keeps to that: at every [await] the state
    is [Mid], the attempt does not end by an uncaught exception, and
    when it returns the state is [Rest]. *)
Fixpoint safe (ans : Answers) (m : Async unit) (w : World) : Prop :=
  match m with
  | Ret _ => Rest w
  | Throw _ => False
  | Hang => Mid w
  | Read k => safe ans (k w) w
  | Write f k => safe ans k (f w)
  | Call_jsPDF k => safe ans (k (answer_jsPDF ans)) w
  | Await_reconstructContentToHtml _ _ k =>
    Mid w /\ safe ans (k (ans_reconstructContentToHtml ans)) w
  | Await_setTimeout _ k => Mid w /\ safe ans k w
  | Await_html2canvas _ k => Mid w /\ safe ans (k (ans_html2canvas ans)) w
  | Await_fetch _ k => Mid w /\ safe ans (k (ans_fetch ans)) w
  | Await_blob _ k => Mid w /\ safe ans (k (ans_blob ans)) w
  end.

(** Suspended at an [await]. *)
Definition awaiting (m : Async unit) : Prop :=
  match m with
  | Await_reconstructContentToHtml _ _ _ | Await_setTimeout _ _
  | Await_html2canvas _ _ | Await_fetch _ _ | Await_blob _ _ => True
  | _ => False
  end.

(** At most one attempt is in flight; the event loop is blocked only
    in the middle of an attempt. *)
Definition SessionInv (s : Session) : Prop :=
  match inflight s with
  | [] => if blocked s then Mid (world s) else Rest (world s)
  | [(ans, m)] => blocked s = false /\ awaiting m /\ safe ans m (world s)
  | _ => False
  end.

End Invariant.

(* ================================================================== *)
(** * Sessions used as examples *)
(* ================================================================== *)

Module Examples.
Import JsString Types Pdf App.

Definition notes_txt : File :=
  mkFile (js "notes.txt") 12 (js "text/plain") [].


Definition report_doc : File :=
  mkFile (js "report.doc") 2048 (js "application/msword") [].

(** The extractor answers with a paragraph; the calls of the raster
    path are not reached for the target TXT. *)
Definition answers : Answers :=
  mkAnswers (inr (js "<p>Hello</p>"))
            (inr (mkCanvas 1588 2246))
            (inr (210 # 1, 297 # 1))
            (inl (Error (js "Failed to fetch")))
            (inl (Error (js "Failed to fetch"))).


Definition run (evs : list Event) : option Session :=
  fold_left (fun s ev => match s with
                         | Some s => step s ev
                         | None => None
                         end) evs (Some initial).

Definition worldAfter (evs : list Event) : World :=
  match run evs with
  | Some s => world s
  | None => initialWorld
  end.

Definition sessionAfter (evs : list Event) : Session :=
  match run evs with
  | Some s => s
  | None => initial
  end.

(** A file is selected, TXT chosen and the conversion started: the
    attempt awaits the extractor. *)
Definition started : list Event :=
  [SelectFiles (Some [notes_txt]) (js "k3j9x0a1b"); ClickFormat TXT;
   ClickStart answers].

(** The extractor and then the timer have settled: completed. *)
Definition finished : list Event := started ++ [Settle 0; Settle 0].


End Examples.

(* ================================================================== *)
(** * Patterns with [^] and [$] *)
(* ================================================================== *)

Module Anchored.
Import JsString RegExp.

(** [re], then [k]: the matcher of [RegExp] with what follows the
    pattern left open. *)
Fixpoint matchThen (re : regexp) (k : jsstring -> option nat)
  : jsstring -> option nat :=
  match re with
  | [] => k
  | a :: re' =>
    let k' := matchThen re' k in
    match qnt a with
    | Once => matchOne (cls a) k'
    | Maybe => fun s => match matchOne (cls a) k' s with
                        | Some n => Some n
                        | None => k' s
                        end
    | Many0 => matchStar (cls a) k'
    | Many1 => matchOne (cls a) (matchStar (cls a) k')
    end
  end.

(** [$] (without the [m] flag): the end of the string. *)
Definition atEnd (s : jsstring) : option nat :=
  match s with
  | [] => Some O
  | _ :: _ => None
  end.

(** [s.replace(/^re/g, rep)]: [^] holds at the start of the string
    only, so at most the match there is replaced. *)
Definition replaceAtStart (re : regexp) (rep : jsstring) (s : jsstring)
  : jsstring :=
  match matchLen re s with
  | Some n => rep ++ skipn n s
  | None => s
  end.

(** [s.replace(/re$/g, rep)]: the first position from which [re]
    matches up to the end of the string; behind that match the search
    is at the end, where only an empty match is left to find. *)
Fixpoint replaceToEnd (re : regexp) (rep : jsstring) (s : jsstring)
  : jsstring :=
  match matchThen re atEnd s with
  | Some _ =>
    rep ++ match s with
           | [] => []
           | _ :: _ => match matchThen re atEnd [] with
                       | Some _ => rep
                       | None => []
                       end
           end
  | None =>
    match s with
    | [] => []
    | c :: s' => c :: replaceToEnd re rep s'
    end
  end.

End Anchored.

(* ================================================================== *)
(** * Strings without white space at their ends *)
(* ================================================================== *)

Module Clean.
Import JsString.

Definition startsClean (s : jsstring) : Prop :=
  match s with
  | c :: _ => isWhiteSpace c = false
  | [] => True
  end.

Definition endsClean (s : jsstring) : Prop := startsClean (rev s).

End Clean.

(* ================================================================== *)
(** * [src/services/geminiService.ts] *)
(* ================================================================== *)

Module GeminiService.
Import JsString RegExp Types Encoder App Anchored.

Definition COMMA : char16 := 44%N.
Definition BACKTICK : char16 := 96%N.

Definition SUPPORTED_BINARY_MIMES : list jsstring :=
  [ js "application/pdf"; js "image/png"; js "image/jpeg"; js "image/webp" ].

(** A part of the request, and the request of [generateContent]. *)
Inductive Part :=
| InlineData (data : option jsstring) (mimeType : jsstring)
| TextPart (text : jsstring).

Record Request := mkRequest {
  model : jsstring;
  parts : list Part;
  temperature : Q;
  topP : Q
}.

(** What the function calls: the constructor of the client, the
    [FileReader], [window.mammoth] when it is there, the methods of the
    file ([text] may be called a second time), and the model.
    [generateContent] answers with [response.text]. *)
Record Env := mkEnv {
  newClient : option Thrown;                       (* what the constructor throws *)
  readAsDataURL : File -> Thrown + jsstring;
  mammoth : option (list N -> Thrown + jsstring);  (* extractRawText, its value *)
  arrayBuffer : File -> Thrown + list N;
  fileText : nat -> File -> Thrown + jsstring;     (* the n-th call of file.text() *)
  generateContent : Request -> Thrown + option jsstring
}.

Definition prompt : jsstring :=
  js "你是一个专业的无损文档转换器。你的唯一职责是将提供的原始内容完整复刻为 HTML 格式。
          
          严格准则：
          1. 禁止对内容进行任何解释、分析或总结。
          2. 禁止遗漏任何原始字符（包括标点符号）。
          3. 仅允许使用以下 HTML 标签：<h1>, <h2>, <p>, <br/>, <ul>, <li>, <strong>。
          4. 保持原文的换行逻辑。
          5. 输出必须是纯净的 HTML 代码片段，绝对不能包含 ```html 这种 Markdown 标记，也不要有任何前置说明。
          6. 如果内容极其复杂，请优先保证文字的完整性而非样式的华丽。".

Definition emptyContent : jsstring := js "文件内容为空或无法识别。".
Definition emptyResponse : jsstring := js "AI 转换失败：响应为空".
Definition serverBusy : jsstring := js "由于服务器繁忙，转换请求被拒绝。请重试。".

Definition isEmpty (s : jsstring) : bool :=
  match s with
  | [] => true
  | _ :: _ => false
  end.

(** Lines 34-45: the text of a file that is not sent as it is. *)
Definition extractText (env : Env) (file : File) : Thrown + jsstring :=
  match (if endsWith (toLowerCase (file_name file)) (js ".docx")
         then mammoth env else None) with
  | Some extractRawText =>
    match arrayBuffer env file with
    | inr buffer =>
      match extractRawText buffer with
      | inr value => inr value
      | inl _ => fileText env 0 file
      end
    | inl _ => fileText env 0 file
    end
  | None =>
    match fileText env 0 file with
    | inr text => inr text
    | inl _ => fileText env 1 file
    end
  end.

(** Lines 25-51: [contentPart]. *)
Definition contentPartOf (env : Env) (file : File) : Thrown + Part :=
  if existsb (JsString.eqb (file_type file)) SUPPORTED_BINARY_MIMES then
    match readAsDataURL env file with
    | inl e => inl e
    | inr result =>
      let base64Data := nth_error (split COMMA result) 1 in
      inr (InlineData base64Data (file_type file))
    end
  else
    match extractText env file with
    | inl e => inl e
    | inr extractedText =>
      if isEmpty extractedText || isEmpty (trim extractedText)
      then inl (Error emptyContent)
      else inr (TextPart (js "[START_ORIGINAL_CONTENT]" ++ [LF] ++ extractedText
                             ++ [LF] ++ js "[END_ORIGINAL_CONTENT]"))
    end.

Definition requestFor (contentPart : Part) : Request :=
  mkRequest (js "gemini-3-flash-preview") [contentPart; TextPart prompt]
            0 (1 # 10).

(** Line 77: the code fence a model may put around its answer is
    taken off. *)
Definition re_fence_html : regexp :=                   (* /^```html\s*/gi *)
  lit_i "```html" ++ [Atom isWhiteSpace Many0].
Definition re_fence_open : regexp :=                   (* /^```\s*/g *)
  lit "```" ++ [Atom isWhiteSpace Many0].
Definition re_fence_close : regexp :=                  (* /\s*```$/g *)
  Atom isWhiteSpace Many0 :: lit "```".

Definition cleanup (result : jsstring) : jsstring :=
  result
  |> replaceAtStart re_fence_html []
  |> replaceAtStart re_fence_open []
  |> replaceToEnd re_fence_close []
  |> trim.

(** The body of the [try]. *)
Definition reconstructBody (env : Env) (file : File) : Thrown + jsstring :=
  match contentPartOf env file with
  | inl e => inl e
  | inr contentPart =>
    match generateContent env (requestFor contentPart) with
    | inl e => inl e
    | inr text =>
      let result := cleanup (match text with
                             | Some (c :: t) => c :: t
                             | _ => []
                             end) in
      if isEmpty result then inl (Error emptyResponse) else inr result
    end
  end.

(** [reconstructContentToHtml]; the client is made before the [try],
    [targetFormat] is not looked at. *)
Definition reconstructContentToHtml (env : Env) (file : File)
           (targetFormat : jsstring) : Thrown + jsstring :=
  match newClient env with
  | Some e => inl e
  | None =>
    match reconstructBody env file with
    | inl err => inl (Error (or_else (message err) serverBusy))
    | inr result => inr result
    end
  end.

(** The answers of an attempt of [App] when the extractor is this
    function. *)
Definition answersWith (env : Env) (file : File) (fmt : FileFormat)
           (ans : Answers) : Answers :=
  mkAnswers (reconstructContentToHtml env file (formatName fmt))
            (ans_html2canvas ans) (ans_jsPDF ans) (ans_fetch ans)
            (ans_blob ans).

End GeminiService.

(* ================================================================== *)
(** * The state of the conversion, field by field *)
(* ================================================================== *)

Module Coherence.
Import JsString Types App.

(** What the fields of the state are in each status. *)
Definition Coherent (w : World) : Prop :=
  let c := conversion w in
  match status c with
  | idle =>
    progress c = 0%N /\ error_ c = None /\ resultUrl c = None
    /\ resultName c = None /\ previewHtml w = []
  | converting =>
    (progress c = 10%N \/ progress c = 50%N) /\ error_ c = None
    /\ resultUrl c = None /\ resultName c = None /\ file w <> None
  | completed =>
    progress c = 100%N /\ error_ c = None
    /\ resultUrl c <> None
    /\ exists f, file w = Some f
                 /\ resultName c = Some (resultNameOf (name f) (targetFormat w))
  | error =>
    progress c = 0%N /\ resultUrl c = None /\ resultName c = None
    /\ exists msg, error_ c = Some msg /\ msg <> []
  | uploading => False
  end.

(** [P] holds whenever the attempt is suspended and when it is over. *)
Fixpoint always (P : World -> Prop) (ans : Answers) (m : Async unit)
         (w : World) : Prop :=
  match m with
  | Ret _ | Throw _ | Hang => P w
  | Read k => always P ans (k w) w
  | Write f k => always P ans k (f w)
  | Call_jsPDF k => always P ans (k (answer_jsPDF ans)) w
  | Await_reconstructContentToHtml _ _ k =>
    P w /\ always P ans (k (ans_reconstructContentToHtml ans)) w
  | Await_setTimeout _ k => P w /\ always P ans k w
  | Await_html2canvas _ k => P w /\ always P ans (k (ans_html2canvas ans)) w
  | Await_fetch _ k => P w /\ always P ans (k (ans_fetch ans)) w
  | Await_blob _ k => P w /\ always P ans (k (ans_blob ans)) w
  end.

End Coherence.

(* ================================================================== *)
(** * What an attempt asks of the network *)
(* ================================================================== *)

Module Trace.
Import JsString Types Pdf App.

(** The data URLs handed to [fetch] while the attempt runs to its end. *)
Fixpoint fetched (ans : Answers) (m : Async unit) (w : World) : list DataURL :=
  match m with
  | Ret _ | Throw _ | Hang => []
  | Read k => fetched ans (k w) w
  | Write f k => fetched ans k (f w)
  | Call_jsPDF k => fetched ans (k (answer_jsPDF ans)) w
  | Await_reconstructContentToHtml _ _ k =>
    fetched ans (k (ans_reconstructContentToHtml ans)) w
  | Await_setTimeout _ k => fetched ans k w
  | Await_html2canvas _ k => fetched ans (k (ans_html2canvas ans)) w
  | Await_fetch dataUrl k => dataUrl :: fetched ans (k (ans_fetch ans)) w
  | Await_blob _ k => fetched ans (k (ans_blob ans)) w
  end.

End Trace.

(* ================================================================== *)
(** * Environments of the extractor used as examples *)
(* ================================================================== *)

Module ExtractorExamples.
Import JsString Types App GeminiService Examples.

(** The model answers inside a code fence. *)
Definition fencedAnswer : jsstring :=
  js "```html" ++ [LF] ++ js "<p>Hello</p>" ++ [LF] ++ js "```".

Definition envWith (text : jsstring)
           (answer : Request -> Thrown + option jsstring) : Env :=
  mkEnv None
        (fun _ => inr (js "data:image/png;base64,iVBORw0KGgo="))
        None
        (fun _ => inr [])
        (fun _ _ => inr text)
        answer.

Definition envFenced : Env :=
  envWith (js "Hello") (fun _ => inr (Some fencedAnswer)).

(** The file holds white space only. *)
Definition envBlank : Env :=
  envWith (js "  ") (fun _ => inr (Some fencedAnswer)).

(** The call of the model is rejected with a value without message. *)
Definition envDown : Env :=
  envWith (js "Hello") (fun _ => inl (mkThrown None)).

Definition selected : list Event :=
  [SelectFiles (Some [notes_txt]) (js "k3j9x0a1b"); ClickFormat MD].

Definition notes : AppFile :=
  mkAppFile (js "k3j9x0a1b") (js "notes.txt") 12 (js "text/plain") notes_txt.

(** The snapshot is taken and the browser hands back the image behind
    its data URL. *)
Definition snapshot : Pdf.Canvas := Pdf.mkCanvas 1588 2246.

Definition pngBody : Blob :=
  mkBlob [DataPart (Pdf.toDataURL snapshot (js "image/png") (9 # 10))]
         (js "image/png").

Definition answersImage : Answers :=
  mkAnswers (inr (js "<p>Hello</p>"))
            (inr snapshot)
            (inl (Error (js "jsPDF is not a constructor")))
            (inr (mkResponse (Pdf.toDataURL snapshot (js "image/png") (9 # 10))))
            (inr pngBody).

End ExtractorExamples.

(* ================================================================== *)
(** * Properties of [replace] and of the tag pattern *)
(* ================================================================== *)

Section ReplaceFacts.
Import JsString RegExp Encoder.

Variable re : regexp.
Variable rep : jsstring.

(** Behind a match, the search goes on with what follows it. *)
Lemma replaceFrom_skip (p rest : jsstring) :
  replaceFrom re rep (length p) (p ++ rest) = replaceFrom re rep 0 rest.
Proof.
  induction p as [|c p IH]; simpl; auto.
Qed.

Lemma replace_nil : matchLen re [] = None -> replace re rep [] = [].
Proof.
  unfold replace; simpl; intros ->; reflexivity.
Qed.

(** Where no match starts, the code unit is kept. *)
Lemma replace_keep (c : char16) (s : jsstring) :
  matchLen re (c :: s) = None ->
  replace re rep (c :: s) = c :: replace re rep s.
Proof.
  unfold replace; simpl; intros ->; reflexivity.
Qed.

(** A match of [n] code units is replaced. *)
Lemma replace_match (p rest : jsstring) (c : char16) :
  matchLen re (c :: p ++ rest) = Some (S (length p)) ->
  replace re rep (c :: p ++ rest) = rep ++ replace re rep rest.
Proof.
  unfold replace; simpl; intros ->.
  now rewrite replaceFrom_skip.
Qed.

End ReplaceFacts.

Section TagPattern.
Import JsString RegExp Encoder.

Lemma untilGT_None (s : jsstring) : untilGT s = None <-> ~ In GT s.
Proof.
  induction s as [|c s IH]; simpl.
  - tauto.
  - destruct (N.eqb_spec c GT) as [->|Hc].
    + split; [discriminate | intros H; exfalso; apply H; now left].
    + destruct (untilGT s); simpl.
      * split; [discriminate|].
        intros H. exfalso. apply H. right.
        destruct (in_dec N.eq_dec GT s) as [Hin|Hin]; auto.
        now apply IH in Hin.
      * split; auto. intros _ [Heq|Hin]; [congruence|].
        now apply IH in Hin.
Qed.

Lemma untilGT_app (p q : jsstring) (n : nat) :
  untilGT p = Some n -> untilGT (p ++ q) = Some n.
Proof.
  revert n; induction p as [|c p IH]; simpl; intros n; [discriminate|].
  destruct (c =? GT)%N; auto.
  destruct (untilGT p) as [m|]; simpl; [|discriminate].
  intros [= <-]. now rewrite (IH m eq_refl).
Qed.

Lemma matchStar_untilGT (s : jsstring) :
  matchStar (notchr GT) (matchOne (chr GT) (fun _ => Some 0%nat)) s = untilGT s.
Proof.
  induction s as [|c s IH]; simpl; auto.
  rewrite IH. unfold notchr, chr.
  destruct (c =? GT)%N; simpl; auto.
Qed.

(** [/<[^>]+>/] at the start of a string. *)
Lemma matchLen_re_tag (s : jsstring) :
  matchLen re_tag s =
  match s with
  | c :: x :: s' =>
    if (c =? LT)%N && negb (x =? GT)%N
    then option_map S (option_map S (untilGT s'))
    else None
  | _ => None
  end.
Proof.
  unfold re_tag. cbn [matchLen qnt cls].
  destruct s as [|c [|x s']]; cbn [matchOne].
  - reflexivity.
  - unfold chr at 1. destruct (c =? LT)%N; reflexivity.
  - rewrite matchStar_untilGT. unfold chr, notchr.
    destruct (c =? LT)%N, (x =? GT)%N; reflexivity.
Qed.

Lemma matchLen_re_tag_not_empty (s : jsstring) :
  matchLen re_tag s <> Some 0%nat.
Proof.
  rewrite matchLen_re_tag.
  destruct s as [|c [|x s']]; try discriminate.
  destruct ((c =? LT)%N && negb (x =? GT)%N); [|discriminate].
  destruct (untilGT s'); discriminate.
Qed.

Lemma matchLen_re_tag_app (p q : jsstring) (n : nat) :
  matchLen re_tag p = Some n -> matchLen re_tag (p ++ q) = Some n.
Proof.
  rewrite !matchLen_re_tag.
  destruct p as [|c [|x p']]; try discriminate. simpl.
  destruct ((c =? LT)%N && negb (x =? GT)%N); [|discriminate].
  destruct (untilGT p') as [m|] eqn:E; [|discriminate].
  now rewrite (untilGT_app p' q E).
Qed.

(** With an empty replacement nothing is added. *)
Lemma replaceFrom_nil_In (r : regexp) (n : nat) (s : jsstring) (c : char16) :
  In c (replaceFrom r [] n s) -> In c s.
Proof.
  revert n; induction s as [|x s IH]; intros n; simpl.
  - destruct n; [destruct (matchLen r [])  as [[|]|]|]; auto.
  - destruct n as [|n]; [|eauto].
    destruct (matchLen r (x :: s)) as [[|m]|]; simpl.
    + intros [->|H]; eauto.
    + eauto.
    + intros [->|H]; eauto.
Qed.

Lemma strip_keeps_no_match (c : char16) (s : jsstring) :
  matchLen re_tag (c :: s) = None ->
  matchLen re_tag (c :: replace re_tag [] s) = None.
Proof.
  rewrite !matchLen_re_tag.
  destruct s as [|x s'].
  - reflexivity.
  - destruct (N.eqb_spec c LT) as [->|Hc]; simpl.
    2:{ intros _. now destruct (replace re_tag [] (x :: s')). }
    destruct (N.eqb_spec x GT) as [->|Hx]; simpl.
    + auto.
    + intros H.
      assert (HnoGT : ~ In GT (x :: s')).
      { intros [E|Hin]; [congruence|].
        destruct (untilGT s') eqn:E; [discriminate|].
        now apply untilGT_None in E. }
      assert (Hout : ~ In GT (replace re_tag [] (x :: s'))).
      { intros Hin. apply HnoGT. eapply replaceFrom_nil_In, Hin. }
      destruct (replace re_tag [] (x :: s')) as [|y o]; auto.
      destruct (N.eqb_spec y GT) as [->|Hy]; simpl; auto.
      assert (E : untilGT o = None).
      { apply untilGT_None. intros Hin. apply Hout. now right. }
      now rewrite E.
Qed.

(** After [replace(/<[^>]+>/g, '')] no tag is left. *)
Lemma strip_no_tag_from (n : nat) (s : jsstring) :
  test re_tag (replaceFrom re_tag [] n s) = false.
Proof.
  revert n; induction s as [|c s IH]; intros n.
  - cbn [replaceFrom].
    destruct n; [destruct (matchLen re_tag []) as [[|]|]|]; reflexivity.
  - cbn [replaceFrom]. destruct n as [|n]; [|apply IH].
    destruct (matchLen re_tag (c :: s)) as [[|m]|] eqn:E; cbn [app].
    + now apply matchLen_re_tag_not_empty in E.
    + apply IH.
    + apply strip_keeps_no_match in E. unfold replace in E.
      cbn [test]. rewrite E. apply IH.
Qed.

Lemma strip_no_tag (s : jsstring) :
  test re_tag (replace re_tag [] s) = false.
Proof. apply strip_no_tag_from. Qed.

End TagPattern.

(* ================================================================== *)
(** * [trim] *)
(* ================================================================== *)

Section TrimFacts.
Import JsString RegExp Encoder.

Lemma trimStart_suffix (s : jsstring) :
  exists p, s = p ++ trimStart s /\ forallb isWhiteSpace p = true.
Proof.
  induction s as [|c s [p [Hs Hp]]]; simpl.
  - now exists [].
  - destruct (isWhiteSpace c) eqn:E.
    + exists (c :: p); simpl. rewrite E, Hp. now rewrite <- Hs.
    + now exists [].
Qed.

Lemma trimEnd_prefix (s : jsstring) :
  exists q, s = trimEnd s ++ q /\ forallb isWhiteSpace q = true.
Proof.
  unfold trimEnd.
  destruct (trimStart_suffix (rev s)) as [p [Hs Hp]].
  exists (rev p). split.
  - rewrite <- rev_app_distr, <- Hs. now rewrite rev_involutive.
  - rewrite forallb_forall in *. intros x Hx. apply Hp. now apply in_rev.
Qed.

(** [trim] removes white space at both ends and nothing else. *)
Lemma trim_decompose (s : jsstring) :
  exists p q, s = p ++ trim s ++ q
              /\ forallb isWhiteSpace p = true
              /\ forallb isWhiteSpace q = true.
Proof.
  unfold trim.
  destruct (trimStart_suffix s) as [p [Hs Hp]].
  destruct (trimEnd_prefix (trimStart s)) as [q [Ht Hq]].
  exists p, q. repeat split; auto. now rewrite <- Ht.
Qed.

Lemma In_trim (s : jsstring) (c : char16) : In c (trim s) -> In c s.
Proof.
  destruct (trim_decompose s) as [p [q [Hs _]]]. intros H.
  rewrite Hs. apply in_or_app. right. apply in_or_app. now left.
Qed.

Lemma test_app_r (re : regexp) (p s : jsstring) :
  test re (p ++ s) = false -> test re s = false.
Proof.
  induction p as [|c p IH]; simpl; auto.
  destruct (matchLen re (c :: p ++ s)); [discriminate | exact IH].
Qed.

Lemma test_re_tag_app_l (s q : jsstring) :
  test re_tag (s ++ q) = false -> test re_tag s = false.
Proof.
  induction s as [|c s IH]; intros H.
  - cbn [test]. now rewrite matchLen_re_tag.
  - cbn [test app] in *.
    destruct (matchLen re_tag (c :: s)) as [n|] eqn:E.
    + apply matchLen_re_tag_app with (q := q) in E.
      cbn [app] in E. rewrite E in H. discriminate.
    + destruct (matchLen re_tag (c :: s ++ q)); [discriminate | auto].
Qed.

Lemma trim_no_tag (s : jsstring) :
  test re_tag s = false -> test re_tag (trim s) = false.
Proof.
  destruct (trim_decompose s) as [p [q [Hs _]]]. intros H.
  rewrite Hs in H. apply test_app_r in H. now apply test_re_tag_app_l in H.
Qed.

End TrimFacts.

(* ================================================================== *)
(** * The encoders on well-formed fragments *)
(* ================================================================== *)

Section TokenFacts.
Import JsString RegExp Encoder Fragment.

(** ** Patterns of the shape of a tag *)

Lemma GoodCont_last (l : char16 -> bool) :
  (forall x, l x = true -> x = GT) ->
  GoodCont (matchOne l (fun _ => Some 0%nat)).
Proof.
  intros Hl [|c body] rest Hb; simpl.
  - destruct (l GT); simpl; split; auto. now intros n [= <-]. discriminate.
  - destruct (l c) eqn:E.
    + apply Hl in E. subst. exfalso. apply Hb. now left.
    + split; [reflexivity | discriminate].
Qed.

Lemma GoodCont_one (c : char16 -> bool) (k : jsstring -> option nat) :
  c GT = false -> GoodCont k -> GoodCont (matchOne c k).
Proof.
  intros Hc Hk [|x body] rest Hb; simpl.
  - rewrite Hc. split; [reflexivity | discriminate].
  - assert (Hb' : ~ In GT body) by (intros H; apply Hb; now right).
    destruct (Hk body rest Hb') as [E Hn]. rewrite E.
    destruct (c x); [|split; [reflexivity | discriminate]].
    split; auto. intros n. destruct (k (body ++ [GT])) as [m|]; simpl;
      [intros [= <-]; now rewrite (Hn m eq_refl) | discriminate].
Qed.

Lemma GoodCont_star (c : char16 -> bool) (k : jsstring -> option nat) :
  c GT = false -> GoodCont k -> GoodCont (matchStar c k).
Proof.
  intros Hc Hk body. induction body as [|x body IH]; intros rest Hb.
  - simpl. rewrite Hc. apply (Hk [] rest Hb).
  - assert (Hb' : ~ In GT body) by (intros H; apply Hb; now right).
    destruct (IH rest Hb') as [E Hn].
    destruct (Hk (x :: body) rest Hb) as [E' Hn'].
    cbn [app matchStar] in *. rewrite E, E'.
    destruct (c x); [|split; auto].
    destruct (matchStar c k (body ++ [GT])) as [m|]; [|split; auto].
    split; auto. intros n [= <-]. now rewrite (Hn m eq_refl).
Qed.

Lemma GoodCont_maybe (c : char16 -> bool) (k : jsstring -> option nat) :
  c GT = false -> GoodCont k ->
  GoodCont (fun s => match matchOne c k s with
                     | Some n => Some n
                     | None => k s
                     end).
Proof.
  intros Hc Hk body rest Hb.
  destruct (@GoodCont_one c k Hc Hk body rest Hb) as [E Hn].
  destruct (Hk body rest Hb) as [E' Hn'].
  rewrite E, E'. split; auto.
  intros n. destruct (matchOne c k (body ++ [GT])) as [m|];
    [intros [= <-]; auto | auto].
Qed.

Lemma GoodCont_matchLen (mid : regexp) (l : char16 -> bool) :
  (forall x, l x = true -> x = GT) ->
  Forall (fun a => cls a GT = false) mid ->
  GoodCont (matchLen (mid ++ [Atom l Once])).
Proof.
  intros Hl Hmid. induction Hmid as [|a mid Ha _ IH].
  - now apply GoodCont_last.
  - cbn [app matchLen]. destruct (qnt a).
    + now apply GoodCont_one.
    + now apply GoodCont_maybe.
    + now apply GoodCont_star.
    + apply GoodCont_one; auto. now apply GoodCont_star.
Qed.

Section OnePattern.
Variable re : regexp.
Hypothesis Hre : TagShaped re.
Variable rep : jsstring.

Lemma tag_no_match_nil : matchLen re [] = None.
Proof.
  destruct Hre as (f & mid & l & -> & _). reflexivity.
Qed.

(** No match starts at a code unit other than [<]. *)
Lemma tag_no_match (c : char16) (s : jsstring) :
  c <> LT -> matchLen re (c :: s) = None.
Proof.
  destruct Hre as (f & mid & l & -> & Hf & _). intros Hc.
  cbn [matchLen qnt cls matchOne].
  destruct (f c) eqn:E; auto. now apply Hf in E.
Qed.

(** At a tag, the match is the whole tag or there is none. *)
Lemma tag_match (body rest : jsstring) :
  ~ In GT body ->
  matchLen re (LT :: body ++ GT :: rest) =
  if fullMatch re (LT :: body ++ [GT])
  then Some (S (length (body ++ [GT])))
  else None.
Proof.
  destruct Hre as (f & mid & l & -> & Hf & Hl & HlGT & Hmid). intros Hb.
  unfold fullMatch. cbn [matchLen qnt cls matchOne].
  destruct (@GoodCont_matchLen mid l Hl Hmid body rest Hb) as [E Hn]. rewrite E.
  destruct (f LT); auto.
  destruct (matchLen (mid ++ [Atom l Once]) (body ++ [GT])) as [n|]; auto.
  rewrite (Hn n eq_refl). cbn [option_map length].
  rewrite length_app, Nat.add_comm. cbn [length Nat.add].
  now rewrite Nat.eqb_refl.
Qed.

Lemma replace_text (s rest : jsstring) :
  ~ In LT s -> replace re rep (s ++ rest) = s ++ replace re rep rest.
Proof.
  induction s as [|c s IH]; intros Hs; auto.
  cbn [app]. rewrite replace_keep.
  - rewrite IH; auto. intros H; apply Hs; now right.
  - apply tag_no_match. intros ->. apply Hs. now left.
Qed.

Lemma plain_spec (s : jsstring) :
  plain s = true -> ~ In LT s /\ ~ In GT s.
Proof.
  unfold plain. rewrite forallb_forall. intros H.
  split; intros Hin; apply H in Hin; now rewrite ?N.eqb_refl, ?andb_false_r in Hin.
Qed.

Lemma replace_token (t : token) (rest : jsstring) :
  wellFormed t = true ->
  replace re rep (render1 t ++ rest)
  = render1 (substitute re rep t) ++ replace re rep rest.
Proof.
  destruct t as [s|body]; cbn [wellFormed render1 substitute]; intros Hwf.
  - apply replace_text. now apply plain_spec.
  - apply andb_true_iff in Hwf. destruct Hwf as [Hp _].
    apply plain_spec in Hp. destruct Hp as [HLT HGT].
    pose proof (@tag_match body rest HGT) as Hm.
    destruct (fullMatch re (LT :: body ++ [GT])).
    + cbn [app render1].
      apply (@replace_match re rep (body ++ [GT]) rest LT).
      rewrite <- app_assoc. exact Hm.
    + cbn [app render1].
      rewrite replace_keep by (rewrite <- app_assoc; exact Hm).
      rewrite replace_text; [reflexivity|].
      intros Hin. apply in_app_or in Hin. destruct Hin as [Hin|[E|[]]]; auto.
      discriminate.
Qed.

(** One pass of [replace] works tag by tag. *)
Lemma replace_render (ts : list token) :
  forallb wellFormed ts = true ->
  replace re rep (render ts) = render (map (substitute re rep) ts).
Proof.
  induction ts as [|t ts IH]; cbn [forallb render flat_map map]; intros H.
  - apply replace_nil, tag_no_match_nil.
  - apply andb_true_iff in H. destruct H as [Ht Hts].
    rewrite replace_token by exact Ht. fold (render ts). now rewrite IH.
Qed.

Lemma substitute_wellFormed (ts : list token) :
  plain rep = true ->
  forallb wellFormed ts = true ->
  forallb wellFormed (map (substitute re rep) ts) = true.
Proof.
  intros Hrep. induction ts as [|t ts IH]; cbn [forallb map]; auto.
  intros H. apply andb_true_iff in H. destruct H as [Ht Hts].
  rewrite IH by exact Hts. rewrite andb_true_r.
  destruct t as [s|body]; cbn [substitute]; auto.
  destruct (fullMatch re (render1 (Tag body))); auto.
Qed.

End OnePattern.

(** ** The patterns of the encoders have that shape *)

Lemma chr_i_LT (x : char16) : chr_i LT x = true -> x = LT.
Proof.
  unfold chr_i, canonicalize, LT. simpl.
  destruct ((97 <=? x)%N && (x <=? 122)%N) eqn:E; intros H;
    apply N.eqb_eq in H; auto.
  apply andb_true_iff in E. destruct E as [E1 E2].
  apply N.leb_le in E1, E2. lia.
Qed.

Lemma chr_i_GT (x : char16) : chr_i GT x = true -> x = GT.
Proof.
  unfold chr_i, canonicalize, GT. simpl.
  destruct ((97 <=? x)%N && (x <=? 122)%N) eqn:E; intros H;
    apply N.eqb_eq in H; auto.
  apply andb_true_iff in E. destruct E as [E1 E2].
  apply N.leb_le in E1, E2. lia.
Qed.

Lemma chr_eq (p x : char16) : chr p x = true -> x = p.
Proof. unfold chr. apply N.eqb_eq. Qed.

Ltac tag_shaped mid :=
  exists (chr_i LT), mid, (chr_i GT);
  split; [reflexivity|];
  split; [exact chr_i_LT|];
  split; [exact chr_i_GT|];
  split; [reflexivity | repeat constructor].

Lemma shape_h1_open : TagShaped re_h1_open.
Proof. tag_shaped (lit_i "h1"). Qed.
Lemma shape_h1_close : TagShaped re_h1_close.
Proof. tag_shaped (lit_i "/h1"). Qed.
Lemma shape_h2_open : TagShaped re_h2_open.
Proof. tag_shaped (lit_i "h2"). Qed.
Lemma shape_h2_close : TagShaped re_h2_close.
Proof. tag_shaped (lit_i "/h2"). Qed.
Lemma shape_p_open : TagShaped re_p_open.
Proof. tag_shaped (lit_i "p"). Qed.
Lemma shape_p_close : TagShaped re_p_close.
Proof. tag_shaped (lit_i "/p"). Qed.
Lemma shape_br : TagShaped re_br.
Proof.
  tag_shaped (lit_i "br" ++ [Atom isWhiteSpace Many0; Atom (chr_i SLASH) Maybe]).
Qed.
Lemma shape_li_open : TagShaped re_li_open.
Proof. tag_shaped (lit_i "li"). Qed.
Lemma shape_li_close : TagShaped re_li_close.
Proof. tag_shaped (lit_i "/li"). Qed.
Lemma shape_tag : TagShaped re_tag.
Proof.
  exists (chr LT), [Atom (notchr GT) Many1], (chr GT).
  split; [reflexivity|].
  split; [exact (chr_eq LT)|].
  split; [exact (chr_eq GT)|].
  split; [reflexivity | repeat constructor].
Qed.

(** ** Every tag is a match of the catch-all pattern *)

Lemma untilGT_snoc (b : jsstring) :
  ~ In GT b -> untilGT (b ++ [GT]) = Some (S (length b)).
Proof.
  induction b as [|c b IH]; simpl; intros Hb; auto.
  destruct (N.eqb_spec c GT) as [->|Hc].
  - exfalso. apply Hb. now left.
  - rewrite IH; auto.
Qed.

Lemma fullMatch_re_tag (body : jsstring) :
  wellFormed (Tag body) = true ->
  fullMatch re_tag (render1 (Tag body)) = true.
Proof.
  cbn [wellFormed render1]. intros H. apply andb_true_iff in H.
  destruct H as [Hp Hne]. apply plain_spec in Hp. destruct Hp as [_ HGT].
  destruct body as [|x b]; [discriminate|].
  unfold fullMatch. rewrite matchLen_re_tag. cbn [app].
  rewrite N.eqb_refl.
  destruct (N.eqb_spec x GT) as [->|Hx]; [exfalso; apply HGT; now left|].
  rewrite untilGT_snoc by (intros Hin; apply HGT; now right).
  cbn [andb negb option_map length]. rewrite length_app. cbn [length].
  rewrite Nat.add_comm. cbn [Nat.add]. apply Nat.eqb_refl.
Qed.

(** ** The two encoders, tag by tag *)

Lemma md_pass_render1 (t : token) :
  wellFormed t = true -> render1 (md_pass t) = md_of_token t.
Proof.
  destruct t as [s|body]; [reflexivity|]. intros Hwf.
  pose proof (fullMatch_re_tag body Hwf) as Htag.
  unfold md_pass, md_of_token. cbn [substitute render1] in *.
  repeat match goal with
         | |- context [fullMatch ?r ?x] =>
           lazymatch r with
           | re_tag => fail
           | _ => destruct (fullMatch r x);
                  [reflexivity | cbn [substitute render1]]
           end
         end.
  cbn [substitute render1]. now rewrite Htag.
Qed.

Lemma txt_pass_render1 (t : token) :
  wellFormed t = true -> render1 (txt_pass t) = txt_of_token t.
Proof.
  destruct t as [s|body]; [reflexivity|]. intros Hwf.
  pose proof (fullMatch_re_tag body Hwf) as Htag.
  unfold txt_pass, txt_of_token. cbn [substitute render1] in *.
  repeat match goal with
         | |- context [fullMatch ?r ?x] =>
           lazymatch r with
           | re_tag => fail
           | _ => destruct (fullMatch r x);
                  [reflexivity | cbn [substitute render1]]
           end
         end.
  cbn [substitute render1]. now rewrite Htag.
Qed.

Lemma render_pass (pass : token -> token) (of_token : token -> jsstring)
      (ts : list token) :
  (forall t, wellFormed t = true -> render1 (pass t) = of_token t) ->
  forallb wellFormed ts = true ->
  render (map pass ts) = flat_map of_token ts.
Proof.
  intros Hpass. induction ts as [|t ts IH]; cbn [forallb map render flat_map];
    auto.
  intros H. apply andb_true_iff in H. destruct H as [Ht Hts].
  rewrite Hpass by exact Ht. fold (render (map pass ts)). now rewrite IH.
Qed.

Ltac one_pass shape :=
  rewrite (replace_render shape);
  [| repeat (apply substitute_wellFormed; [reflexivity|]); assumption ].

(** The Markdown encoder works tag by tag. *)
Lemma encodeMD_render (ts : list token) :
  forallb wellFormed ts = true ->
  encodeMD (render ts) = flat_map md_of_token ts.
Proof.
  intros Hwf. unfold encodeMD.
  one_pass shape_h1_open. one_pass shape_h1_close.
  one_pass shape_h2_open. one_pass shape_h2_close.
  one_pass shape_p_open. one_pass shape_p_close.
  one_pass shape_br. one_pass shape_li_open. one_pass shape_li_close.
  one_pass shape_tag.
  rewrite !map_map. now apply (@render_pass md_pass md_of_token ts md_pass_render1).
Qed.

(** The Plain-Text encoder works tag by tag, and trims. *)
Lemma encodeTXT_render (ts : list token) :
  forallb wellFormed ts = true ->
  encodeTXT (render ts) = trim (flat_map txt_of_token ts).
Proof.
  intros Hwf. unfold encodeTXT. f_equal.
  one_pass shape_br. one_pass shape_p_close. one_pass shape_tag.
  rewrite !map_map. now apply (@render_pass txt_pass txt_of_token ts txt_pass_render1).
Qed.

End TokenFacts.

(* ================================================================== *)
(** * The text-family encoders: claims C2, C3, C4, C9 *)
(* ================================================================== *)

Section EncoderClaims.
Import JsString RegExp Encoder Fragment.

Lemma content_app (a b : jsstring) : content (a ++ b) = content a ++ content b.
Proof. apply filter_app. Qed.

Lemma content_whitespace (p : jsstring) :
  forallb isWhiteSpace p = true -> content p = [].
Proof.
  induction p as [|c p IH]; simpl; auto.
  intros H. apply andb_true_iff in H. destruct H as [Hc Hp].
  rewrite Hc. simpl. auto.
Qed.

Lemma content_trim (s : jsstring) : content (trim s) = content s.
Proof.
  destruct (trim_decompose s) as [p [q [Hs [Hp Hq]]]].
  rewrite Hs at 2. rewrite !content_app.
  rewrite (content_whitespace p Hp), (content_whitespace q Hq).
  now rewrite app_nil_r.
Qed.

Lemma content_flat_map (f : token -> jsstring) (ts : list token) :
  content (flat_map f ts) = flat_map (fun t => content (f t)) ts.
Proof.
  induction ts as [|t ts IH]; simpl; auto.
  now rewrite content_app, IH.
Qed.

Lemma content_of_token (t : token) :
  content (md_of_token t) = content (txt_of_token t).
Proof.
  destruct t as [s|body]; [reflexivity|].
  unfold md_of_token, txt_of_token.
  repeat match goal with
         | |- context [fullMatch ?r ?x] => destruct (fullMatch r x)
         end; reflexivity.
Qed.

Lemma allowlisted_wellFormed (ts : list token) :
  forallb allowlisted ts = true -> forallb wellFormed ts = true.
Proof.
  induction ts as [|t ts IH]; simpl; auto.
  intros H. apply andb_true_iff in H. destruct H as [Ht Hts].
  unfold allowlisted in Ht. apply andb_true_iff in Ht.
  destruct Ht as [-> _]. simpl. auto.
Qed.

Lemma plain_of_token (of_token : token -> jsstring) (ts : list token) :
  (forall t, wellFormed t = true -> plain (of_token t) = true) ->
  forallb wellFormed ts = true ->
  plain (flat_map of_token ts) = true.
Proof.
  intros Hof. induction ts as [|t ts IH]; simpl; auto.
  intros H. apply andb_true_iff in H. destruct H as [Ht Hts].
  unfold plain. rewrite forallb_app.
  change (plain (of_token t) && plain (flat_map of_token ts) = true).
  rewrite Hof, IH; auto.
Qed.

Lemma plain_txt_of_token (t : token) :
  wellFormed t = true -> plain (txt_of_token t) = true.
Proof.
  destruct t as [s|body]; simpl; auto. intros _.
  unfold txt_of_token.
  repeat match goal with
         | |- context [fullMatch ?r ?x] => destruct (fullMatch r x)
         end; reflexivity.
Qed.

Lemma startsWith_app (s q sub : jsstring) :
  startsWith s sub = true -> startsWith (s ++ q) sub = true.
Proof.
  revert s; induction sub as [|p sub IH]; intros [|c s]; simpl; auto;
    try discriminate.
  - now destruct q.
  - intros H. apply andb_true_iff in H. destruct H as [-> H]. simpl. auto.
Qed.

Lemma includes_app_r (s q sub : jsstring) :
  includes s sub = true -> includes (s ++ q) sub = true.
Proof.
  induction s as [|c s IH]; intros H.
  - cbn [includes] in H. rewrite orb_false_r in H.
    destruct sub; [|discriminate]. destruct q; reflexivity.
  - cbn [includes app] in *. apply orb_true_iff in H. apply orb_true_iff.
    destruct H as [H|H]; [left | right; auto].
    now apply (startsWith_app (c :: s) q) in H.
Qed.

Lemma includes_app_l (p s sub : jsstring) :
  includes s sub = true -> includes (p ++ s) sub = true.
Proof.
  induction p as [|c p IH]; intros H; auto.
  cbn [includes app]. rewrite IH by exact H. apply orb_true_r.
Qed.

(** C2.  For the target MD the encoder rewrites, in a fragment of tags
    and text, the opening h1 tag to [# ], the closing h1 and h2 tags to
    a blank line, the opening h2 tag to [## ], drops the opening p tag,
    rewrites the closing p tag to a blank line, br to a newline, the
    opening li tag to [* ] and the closing li tag to a newline, and
    strips every other tag; for the fragment
    [<h1>Title</h1><p>Line one<br/>Line two</p>] the output is [# Title],
    a blank line, then [Line one], a newline and [Line two] (and a
    closing blank line). *)
Theorem markdown_encoder_substitutions (ts : list token) :
  forallb wellFormed ts = true ->
  encodeMD (render ts) = flat_map md_of_token ts
  /\ (md_of_token (Tag (js "h1")) = js "# "
      /\ md_of_token (Tag (js "/h1")) = [LF; LF]
      /\ md_of_token (Tag (js "h2")) = js "## "
      /\ md_of_token (Tag (js "/h2")) = [LF; LF]
      /\ md_of_token (Tag (js "p")) = []
      /\ md_of_token (Tag (js "/p")) = [LF; LF]
      /\ md_of_token (Tag (js "br")) = [LF]
      /\ md_of_token (Tag (js "br/")) = [LF]
      /\ md_of_token (Tag (js "BR")) = [LF]
      /\ md_of_token (Tag (js "br /")) = [LF]
      /\ md_of_token (Tag (js "li")) = js "* "
      /\ md_of_token (Tag (js "/li")) = [LF]
      /\ md_of_token (Tag (js "ul")) = []
      /\ md_of_token (Tag (js "strong")) = []
      /\ md_of_token (Tag (js "script")) = [])
  /\ encodeMD (js "<h1>Title</h1><p>Line one<br/>Line two</p>")
     = js "# Title" ++ [LF; LF] ++ js "Line one" ++ [LF] ++ js "Line two"
          ++ [LF; LF]
  /\ includes (encodeMD (js "<h1>Title</h1><p>Line one<br/>Line two</p>"))
              (js "# Title" ++ [LF; LF] ++ js "Line one" ++ [LF]
                  ++ js "Line two") = true.
Proof.
  intros Hwf. split; [now apply encodeMD_render|].
  split; [repeat split; reflexivity|].
  split; reflexivity.
Qed.

Lemma markdown_encoder_substitutions_witness :
  forallb wellFormed scenarioTokens = true
  /\ encodeMD (render scenarioTokens) = flat_map md_of_token scenarioTokens.
Proof.
  split; [reflexivity|].
  apply (markdown_encoder_substitutions scenarioTokens). reflexivity.
Defined.

(** C3, as the code has it.  For every fragment made of allowlisted
    tags and of text, the Markdown output and the Plain-Text output
    carry the same text: they are equal once white space and the marker
    characters [#] and [*] are deleted from both. *)
Theorem md_txt_same_content (ts : list token) :
  forallb allowlisted ts = true ->
  content (encodeMD (render ts)) = content (encodeTXT (render ts)).
Proof.
  intros H. apply allowlisted_wellFormed in H.
  rewrite encodeMD_render, encodeTXT_render by exact H.
  rewrite content_trim, !content_flat_map.
  apply flat_map_ext. intros t. apply content_of_token.
Qed.

Lemma md_txt_same_content_witness :
  forallb allowlisted scenarioTokens = true
  /\ content (encodeMD (render scenarioTokens))
     = content (encodeTXT (render scenarioTokens)).
Proof.
  split; [reflexivity|].
  apply (md_txt_same_content scenarioTokens). reflexivity.
Defined.

(** C3 as stated fails: for the fragment [<p>a</p>] the Markdown
    output without its markdown syntax is [a] and a blank line, the
    Plain-Text output without header markers is [a]. *)
Lemma md_txt_not_equal :
  forallb allowlisted [Tag (js "p"); Text (js "a"); Tag (js "/p")] = true
  /\ stripMarkdownSyntax
       (encodeMD (render [Tag (js "p"); Text (js "a"); Tag (js "/p")]))
     = js "a" ++ [LF; LF]
  /\ removeHeaderMarkers
       (encodeTXT (render [Tag (js "p"); Text (js "a"); Tag (js "/p")]))
     = js "a"
  /\ stripMarkdownSyntax
       (encodeMD (render [Tag (js "p"); Text (js "a"); Tag (js "/p")]))
     <> removeHeaderMarkers
          (encodeTXT (render [Tag (js "p"); Text (js "a"); Tag (js "/p")])).
Proof.
  repeat split; try reflexivity. vm_compute. discriminate.
Qed.

(** C4, as the code has it.  The MD and the TXT encoders strip every
    tag, allowlisted or not: no tag is left in their output.  The DOCX
    encoder strips nothing: what the fragment contains, a tag from
    outside the allowlist too, is contained in the payload. *)
Theorem encoders_on_tags (htmlContent tag : jsstring) :
  includes htmlContent tag = true ->
  test re_tag (encodeMD htmlContent) = false
  /\ test re_tag (encodeTXT htmlContent) = false
  /\ includes (docxContent htmlContent) tag = true.
Proof.
  intros H.
  split; [apply strip_no_tag|].
  split; [apply trim_no_tag, strip_no_tag|].
  unfold docxContent. now apply includes_app_l, includes_app_r.
Qed.

Lemma encoders_on_tags_witness :
  includes (js "<h1>Title</h1><script>alert(1)</script>") (js "<script>") = true
  /\ test re_tag (encodeMD (js "<h1>Title</h1><script>alert(1)</script>"))
     = false
  /\ includes (docxContent (js "<h1>Title</h1><script>alert(1)</script>"))
              (js "<script>") = true.
Proof.
  split; [reflexivity|].
  pose proof (@encoders_on_tags (js "<h1>Title</h1><script>alert(1)</script>")
                (js "<script>") eq_refl) as (Hmd & _ & Hdocx).
  split; [exact Hmd | exact Hdocx].
Defined.

(** C4 as stated fails for DOCX: a [script] tag of the extractor's
    response is in the payload. *)
Lemma docx_keeps_foreign_tag :
  allowlisted (Tag (js "script")) = false
  /\ includes (docxContent (js "<script>alert(1)</script>")) (js "<script>")
     = true.
Proof. split; reflexivity. Qed.

(** C9, as the code has it.  For every fragment in which each [<]
    opens a tag and each [>] closes one, the Plain-Text output contains
    no [<] and no [>]. *)
Theorem plain_text_no_angle_brackets (ts : list token) (c : char16) :
  forallb wellFormed ts = true ->
  In c (encodeTXT (render ts)) -> c <> LT /\ c <> GT.
Proof.
  intros Hwf Hin. rewrite encodeTXT_render in Hin by exact Hwf.
  apply In_trim in Hin.
  pose proof (plain_of_token txt_of_token ts plain_txt_of_token Hwf) as Hp.
  apply plain_spec in Hp. destruct Hp as [HLT HGT].
  split; intros ->; auto.
Qed.

Lemma plain_text_no_angle_brackets_witness :
  forallb wellFormed scenarioTokens = true
  /\ In 84%N (encodeTXT (render scenarioTokens))
  /\ 84%N <> LT /\ 84%N <> GT.
Proof.
  split; [reflexivity|].
  assert (Hin : In 84%N (encodeTXT (render scenarioTokens))) by (now left).
  split; [exact Hin|].
  apply (@plain_text_no_angle_brackets scenarioTokens 84%N); [reflexivity | exact Hin].
Defined.

(** C9 as stated fails: a [<] that opens no tag is kept. *)
Lemma plain_text_keeps_stray_bracket :
  encodeTXT (js "1 < 2") = js "1 < 2" /\ In LT (encodeTXT (js "1 < 2")).
Proof.
  split; [reflexivity|]. vm_compute. auto.
Qed.

End EncoderClaims.

(* ================================================================== *)
(** * Pagination: claim C1 *)
(* ================================================================== *)

Section PaginationClaims.
Import JsString Pdf.
Local Open Scope Q_scope.

Variable imgData : DataURL.
Variables pdfWidth pdfHeight pageHeight : Q.

Lemma placeOnLast_length (pl : Placement) (ps : list (list Placement)) :
  length (placeOnLast pl ps) = length ps.
Proof.
  induction ps as [|page [|page' ps] IH]; auto.
  change (S (length (placeOnLast pl (page' :: ps))) = S (length (page' :: ps))).
  now rewrite IH.
Qed.

Lemma pages_addImage (fmt : jsstring) (x y w h : Q) (pdf : jsPDF) :
  length (pages (addImage imgData fmt x y w h pdf)) = length (pages pdf).
Proof. apply placeOnLast_length. Qed.

Lemma pages_addPage (pdf : jsPDF) :
  length (pages (addPage pdf)) = S (length (pages pdf)).
Proof.
  unfold addPage; simpl. rewrite length_app. simpl. lia.
Qed.

(** With nothing left ([heightLeft < 0]) the loop is over at once. *)
Lemma addPages_done (fuel : nat) (heightLeft : Q) (pdf : jsPDF) :
  heightLeft < 0 ->
  addPages (S fuel) imgData pdfWidth pdfHeight pageHeight heightLeft pdf
  = Some pdf.
Proof.
  intros H. simpl.
  destruct (Qle_bool 0 heightLeft) eqn:E; auto.
  apply Qle_bool_iff in E. lra.
Qed.

(** The loop adds one page for every multiple of the page height that
    fits into what is left, zero included. *)
Lemma addPages_count (k : nat) :
  0 < pageHeight ->
  forall (heightLeft : Q) (pdf : jsPDF) (fuel : nat),
    inject_Z (Z.of_nat k) * pageHeight <= heightLeft + pageHeight ->
    heightLeft + pageHeight < (inject_Z (Z.of_nat k) + 1) * pageHeight ->
    (k < fuel)%nat ->
    exists pdf',
      addPages fuel imgData pdfWidth pdfHeight pageHeight heightLeft pdf
      = Some pdf'
      /\ length (pages pdf') = (length (pages pdf) + k)%nat.
Proof.
  intros HP. induction k as [|k IH]; intros heightLeft pdf fuel Hlo Hhi Hfuel;
    (destruct fuel as [|fuel]; [lia|]).
  - exists pdf. split; [|lia]. apply addPages_done.
    change (inject_Z (Z.of_nat 0)) with 0 in Hhi. lra.
  - rewrite Nat2Z.inj_succ, <- Z.add_1_r, inject_Z_plus in Hlo, Hhi.
    change (inject_Z 1) with 1 in *.
    assert (Hk : 0 <= inject_Z (Z.of_nat k)).
    { change 0 with (inject_Z 0). rewrite <- Zle_Qle. lia. }
    cbn [addPages].
    assert (E : Qle_bool 0 heightLeft = true) by (apply Qle_bool_iff; nra).
    rewrite E.
    destruct (IH (heightLeft - pageHeight)
                 (addImage imgData (js "JPEG") 0 (heightLeft - pdfHeight)
                           pdfWidth pdfHeight (addPage pdf))
                 fuel) as [pdf' [Hrun Hlen]]; [lra | lra | lia |].
    exists pdf'. split; [exact Hrun|].
    rewrite Hlen, pages_addImage, pages_addPage. lia.
Qed.

(** More fuel does not change the result. *)
Lemma addPages_more_fuel (fuel : nat) :
  forall (heightLeft : Q) (pdf pdf' : jsPDF) (fuel' : nat),
    addPages fuel imgData pdfWidth pdfHeight pageHeight heightLeft pdf
    = Some pdf' ->
    (fuel <= fuel')%nat ->
    addPages fuel' imgData pdfWidth pdfHeight pageHeight heightLeft pdf
    = Some pdf'.
Proof.
  induction fuel as [|fuel IH]; intros heightLeft pdf pdf' fuel' H Hle;
    [discriminate|].
  destruct fuel' as [|fuel']; [lia|].
  cbn [addPages] in *. destruct (Qle_bool 0 heightLeft); auto.
  apply IH; auto. lia.
Qed.

(** With a page height that is not positive the loop, once entered,
    does not end. *)
Lemma addPages_diverges (fuel : nat) :
  pageHeight <= 0 ->
  forall (heightLeft : Q) (pdf : jsPDF),
    0 <= heightLeft ->
    addPages fuel imgData pdfWidth pdfHeight pageHeight heightLeft pdf = None.
Proof.
  intros HP. induction fuel as [|fuel IH]; intros heightLeft pdf H; auto.
  cbn [addPages].
  assert (E : Qle_bool 0 heightLeft = true) by (now apply Qle_bool_iff).
  rewrite E. apply IH. lra.
Qed.

Lemma floor_bounds (x : Q) :
  0 < pageHeight -> 0 <= x ->
  inject_Z (Z.of_nat (Z.to_nat (Qfloor (x / pageHeight)))) * pageHeight <= x
  /\ x < (inject_Z (Z.of_nat (Z.to_nat (Qfloor (x / pageHeight)))) + 1)
          * pageHeight.
Proof.
  intros HP Hx.
  assert (Hne : ~ pageHeight == 0) by lra.
  assert (Hq : 0 <= x / pageHeight).
  { apply Qle_shift_div_l; auto. lra. }
  assert (Hf : (0 <= Qfloor (x / pageHeight))%Z).
  { rewrite <- (Qfloor_Z 0). now apply Qfloor_resp_le. }
  rewrite Z2Nat.id by exact Hf.
  pose proof (Qfloor_le (x / pageHeight)) as Hlo.
  pose proof (Qlt_floor (x / pageHeight)) as Hhi.
  rewrite inject_Z_plus in Hhi. change (inject_Z 1) with 1 in Hhi.
  pose proof (Qmult_div_r x pageHeight Hne) as Hx'.
  split.
  - rewrite <- Hx' at 2. rewrite (Qmult_comm pageHeight).
    apply Qmult_le_compat_r; auto. lra.
  - rewrite <- Hx' at 1. rewrite (Qmult_comm pageHeight).
    apply Qmult_lt_compat_r; auto.
Qed.

(** The loop ends with the fuel [pagesFuel], and has then added
    [floor (pdfHeight / pageHeight)] pages. *)
Lemma addPages_floor (pdf : jsPDF) :
  0 < pageHeight -> 0 <= pdfHeight ->
  exists pdf',
    addPages (pagesFuel pdfHeight pageHeight) imgData pdfWidth pdfHeight
             pageHeight (pdfHeight - pageHeight) pdf = Some pdf'
    /\ length (pages pdf')
       = (length (pages pdf) + Z.to_nat (Qfloor (pdfHeight / pageHeight)))%nat.
Proof.
  intros HP HH. destruct (floor_bounds HP HH) as [Hlo Hhi].
  apply addPages_count; auto; unfold pagesFuel; try lra; lia.
Qed.

End PaginationClaims.

Section PaginationOfCanvas.
Import JsString Pdf.
Local Open Scope Q_scope.

(** The fuel of [paginate] in [startConversion] is enough: when the
    loop ends for some fuel, it ends for this one, with the same
    document. *)
Lemma paginate_fuel (fuel : nat) (imgData : DataURL) (canvas : Canvas)
      (pdf pdf' : jsPDF) :
  paginate fuel imgData canvas pdf = Some pdf' ->
  paginate (pagesFuel (pdfHeightOf canvas pdf) (getHeight pdf))
           imgData canvas pdf = Some pdf'.
Proof.
  unfold paginate. fold (pdfHeightOf canvas pdf).
  set (H := pdfHeightOf canvas pdf). set (P := getHeight pdf).
  set (pdf1 := addImage imgData (js "JPEG") 0 0 (getWidth pdf) H pdf).
  intros Hrun.
  destruct (Qlt_le_dec (H - P) 0) as [Hneg|Hpos].
  - unfold pagesFuel. rewrite addPages_done in * by exact Hneg.
    destruct fuel; [discriminate|].
    now rewrite addPages_done in Hrun by exact Hneg.
  - destruct (Qlt_le_dec 0 P) as [HP|HP].
    + assert (HH : 0 <= H) by lra.
      destruct (addPages_floor imgData (getWidth pdf) pdf1 HP HH)
        as [pdf2 [Hrun2 _]].
      rewrite Hrun2.
      destruct (Nat.le_ge_cases fuel (pagesFuel H P)) as [Hle|Hle].
      * apply addPages_more_fuel with (fuel' := pagesFuel H P) in Hrun; auto.
        congruence.
      * apply addPages_more_fuel with (fuel' := fuel) in Hrun2; auto.
        congruence.
    + now rewrite (@addPages_diverges imgData (getWidth pdf) H P fuel HP
                                      (H - P) pdf1 Hpos) in Hrun.
Qed.




End PaginationOfCanvas.

(* ================================================================== *)
(** * The orchestrator: claim C8 *)
(* ================================================================== *)

Section OrchestratorClaims.
Import JsString RegExp Types Encoder Pdf App Examples.

#[local] Arguments conversionBody : simpl never.
#[local] Arguments encodeMD : simpl never.
#[local] Arguments encodeTXT : simpl never.
#[local] Arguments docxContent : simpl never.
#[local] Arguments renderMarkup : simpl never.
#[local] Arguments paginate : simpl never.
#[local] Arguments resultNameOf : simpl never.

(** ** The two ways of running agree *)

Lemma exec_advance (ans : Answers) (m : Async unit) (w : World) :
  exec ans m w =
  match advance ans m w with
  | (w', Finished o) => (w', o)
  | (w', Suspended m') => exec ans (settle ans m') w'
  end.
Proof.
  revert w; induction m; intros w; simpl; auto.
Qed.

(** ** [try] and [catch] *)

Lemma exec_tryCatch (ans : Answers) (m : Async unit)
      (h : Thrown -> Async unit) (w : World) :
  exec ans (tryCatch m h) w =
  match exec ans m w with
  | (w1, Uncaught e) => exec ans (h e) w1
  | r => r
  end.
Proof.
  revert w; induction m; intros w; simpl; auto.
Qed.



(** The stages.  A rejection of the extractor ends the body by that
    exception. *)
Lemma extraction_failure (ans : Answers) (w : World) (f : AppFile)
      (fmt : FileFormat) (e : Thrown) :
  ans_reconstructContentToHtml ans = inl e ->
  exec ans (conversionBody f fmt) w
  = (logExtractorCall (blob f) fmt w, Uncaught e).
Proof.
  intros H. unfold conversionBody, reconstructContentToHtml.
  cbn [bind exec]. rewrite H. reflexivity.
Qed.

(** The container missing ends it by the exception of line 59. *)
Lemma render_failure (ans : Answers) (w : World) (f : AppFile)
      (fmt : FileFormat) (htmlContent : jsstring) :
  ans_reconstructContentToHtml ans = inr htmlContent ->
  hiddenRender w = None ->
  snd (exec ans (conversionBody f fmt) w)
  = Uncaught (Error (js "渲染容器失效")).
Proof.
  intros H Hc. unfold conversionBody, reconstructContentToHtml.
  cbn [bind exec update get]. rewrite H. cbn. rewrite Hc. reflexivity.
Qed.

(** The markup written into the container declares the render root. *)
Lemma render_root_found (htmlContent : jsstring) (w : World) :
  hiddenRender w <> None ->
  getElementById (js "render-root")
                 (set_innerHTML (renderMarkup (js "render-root") htmlContent) w)
  = Some (renderMarkup (js "render-root") htmlContent).
Proof.
  intros Hc. unfold getElementById, set_innerHTML. cbn [hiddenRender].
  destruct (hiddenRender w); [|congruence]. cbn [option_map].
  assert (E : includes (renderMarkup (js "render-root") htmlContent)
                       (js "id=" ++ [DQUOTE] ++ js "render-root" ++ [DQUOTE])
              = true) by (vm_compute; reflexivity).
  now rewrite E.
Qed.

(** A rejection of the snapshot ends it by that exception. *)
Lemma rasterize_failure (ans : Answers) (w : World) (f : AppFile)
      (fmt : FileFormat) (htmlContent : jsstring) (e : Thrown) :
  ans_reconstructContentToHtml ans = inr htmlContent ->
  hiddenRender w <> None ->
  isRaster fmt = true ->
  ans_html2canvas ans = inl e ->
  snd (exec ans (conversionBody f fmt) w) = Uncaught e.
Proof.
  intros H Hc Hfmt Hcanvas. unfold conversionBody, reconstructContentToHtml.
  cbn [bind exec update get]. rewrite H. cbn [settled bind exec].
  destruct (hiddenRender w) as [c|] eqn:Ec; [|congruence].
  cbn [hiddenRender setConversion setPreviewHtml logExtractorCall].
  rewrite Ec. cbn [bind exec setTimeout].
  destruct fmt; try discriminate; cbn [bind exec];
    rewrite render_root_found by (cbn; congruence);
    cbn [bind exec html2canvas settled]; now rewrite Hcanvas.
Qed.

(** An exception of the PDF library, or a rejection while the image is
    read back, ends it by that exception. *)
Lemma encode_failure_pdf (ans : Answers) (w : World) (f : AppFile)
      (htmlContent : jsstring) (canvas : Canvas) (e : Thrown) :
  ans_reconstructContentToHtml ans = inr htmlContent ->
  hiddenRender w <> None ->
  ans_html2canvas ans = inr canvas ->
  ans_jsPDF ans = inl e ->
  snd (exec ans (conversionBody f PDF) w) = Uncaught e.
Proof.
  intros H Hc Hcanvas Hpdf. unfold conversionBody, reconstructContentToHtml.
  cbn [bind exec update get]. rewrite H. cbn [settled bind exec].
  destruct (hiddenRender w) as [c|] eqn:Ec; [|congruence].
  cbn [hiddenRender setConversion setPreviewHtml logExtractorCall].
  rewrite Ec. cbn [bind exec setTimeout].
  rewrite render_root_found by (cbn; congruence).
  cbn [bind exec html2canvas settled]. rewrite Hcanvas.
  cbn [bind exec jsPDF_a4 settled]. unfold answer_jsPDF. now rewrite Hpdf.
Qed.

Lemma encode_failure_image (ans : Answers) (w : World) (f : AppFile)
      (fmt : FileFormat) (htmlContent : jsstring) (canvas : Canvas)
      (e : Thrown) :
  ans_reconstructContentToHtml ans = inr htmlContent ->
  hiddenRender w <> None ->
  fmt = JPG \/ fmt = PNG ->
  ans_html2canvas ans = inr canvas ->
  ans_fetch ans = inl e ->
  snd (exec ans (conversionBody f fmt) w) = Uncaught e.
Proof.
  intros H Hc Hfmt Hcanvas Hfetch.
  unfold conversionBody, reconstructContentToHtml.
  cbn [bind exec update get]. rewrite H. cbn [settled bind exec].
  destruct (hiddenRender w) as [c|] eqn:Ec; [|congruence].
  cbn [hiddenRender setConversion setPreviewHtml logExtractorCall].
  rewrite Ec. cbn [bind exec setTimeout].
  destruct Hfmt as [-> | ->]; cbn [bind exec];
    rewrite render_root_found by (cbn; congruence);
    cbn [bind exec html2canvas settled]; rewrite Hcanvas;
    cbn [bind exec fetch settled]; now rewrite Hfetch.
Qed.

End OrchestratorClaims.

(* ================================================================== *)
(** * Sessions: the invariant *)
(* ================================================================== *)

Section SessionFacts.
Import JsString RegExp Types Encoder Pdf App Invariant.

#[local] Arguments encodeMD : simpl never.
#[local] Arguments encodeTXT : simpl never.
#[local] Arguments docxContent : simpl never.
#[local] Arguments renderMarkup : simpl never.
#[local] Arguments paginate : simpl never.
#[local] Arguments resultNameOf : simpl never.
#[local] Arguments getElementById : simpl never.

Lemma liveURLs_nil (w : World) : liveURLs w = [] -> objectURLs w = [].
Proof.
  unfold liveURLs. destruct (objectURLs w); [reflexivity | discriminate].
Qed.

Ltac no_result :=
  match goal with
  | H : resultUrl _ <> None |- _ => now cbn in H
  end.

Ltac step_safe :=
  cbn [safe bind tryCatch update get settled conversionFailed
       reconstructContentToHtml setTimeout html2canvas jsPDF_a4 fetch res_blob
       URL_createObjectURL];
  unfold settled;
  match goal with
  | |- _ /\ _ => split
  | |- context [match ?x with _ => _ end] => destruct x eqn:?
  end.

Lemma safe_startConversion (ans : Answers) (w : World) (f : AppFile) :
  Rest w -> status (conversion w) = idle -> file w = Some f ->
  safe ans startConversion w.
Proof.
  intros (Hst & Hlive & Hres & Hacc & Hcalls) Hidle Hfile.
  assert (Hno : resultUrl (conversion w) = None).
  { destruct (resultUrl (conversion w)) eqn:E; auto.
    destruct Hres as [Hc _]; congruence. }
  rewrite Hno in Hlive. apply liveURLs_nil in Hlive.
  assert (HMid : forall c p html,
             Mid (mkWorld (Some f) (targetFormat w)
                          (mkConversion converting c None None None)
                          p html [] (issued w)
                          (extractorCalls w ++ [(blob f, targetFormat w)]))).
  { intros. repeat split; cbn; auto; try discriminate.
    - intros f' [= <-]. now apply Hacc.
    - apply Forall_app. split; auto.
      repeat constructor. cbn. now apply Hacc. }
  unfold startConversion, conversionBody. cbn [safe]. rewrite Hfile.
  destruct w as [wf wt wc wp wh wo wi we]. cbn in *. subst.
  repeat step_safe; cbn; auto; try (apply HMid).
  all: repeat split; cbn; auto; try discriminate; try congruence.
  all: try (intros f' [= <-]; now apply Hacc).
  all: try (apply Forall_app; split; auto; repeat constructor; cbn;
            now apply Hacc).
  all: match goal with H : resultUrl _ <> None |- _ => now cbn in H end.
Qed.

Lemma safe_advance (ans : Answers) (m : Async unit) (w : World) :
  safe ans m w ->
  match advance ans m w with
  | (w', Suspended m') => awaiting m' /\ safe ans m' w'
  | (w', Finished Returned) => Rest w'
  | (w', Finished Hung) => Mid w'
  | (w', Finished (Uncaught _)) => False
  end.
Proof.
  revert w;
    induction m as [a|e| |k IH|f k IH|f0 fmt k IH|ms k IH|el k IH|k IH|d k IH
                    |r k IH];
    intros w Hsafe; cbn [safe advance] in *;
    try assumption; try (now apply IH); split; cbn; auto.
Qed.

Lemma safe_settle (ans : Answers) (m : Async unit) (w : World) :
  awaiting m -> safe ans m w -> Mid w /\ safe ans (settle ans m) w.
Proof.
  destruct m; cbn; tauto.
Qed.

Lemma resume_inv (ans : Answers) (m : Async unit) (w : World) :
  safe ans m w -> SessionInv (resume ans m [] w).
Proof.
  intros H. apply safe_advance in H. unfold resume.
  destruct (advance ans m w) as [w' [[| e |]|m']]; cbn; tauto.
Qed.

(** While an attempt is in flight the page offers nothing. *)
Lemma Mid_offers_nothing (w : World) :
  Mid w ->
  showsDropZone w = false /\ formatEnabled w = false
  /\ showsStart w = false /\ showsReset w = false.
Proof.
  intros (Hst & Hfile & _).
  unfold formatEnabled, showsStart, showsReset, showsDropZone, isError.
  rewrite Hst. destruct (file w); [|congruence]. repeat split.
Qed.

Lemma Rest_no_result (w : World) :
  Rest w -> file w = None \/ status (conversion w) = idle ->
  resultUrl (conversion w) = None /\ objectURLs w = [].
Proof.
  intros (_ & Hlive & Hres & _) H.
  assert (Hno : resultUrl (conversion w) = None).
  { destruct (resultUrl (conversion w)); auto.
    destruct Hres as [Hc Hf]; [discriminate|].
    destruct H; congruence. }
  split; auto. rewrite Hno in Hlive. now apply liveURLs_nil.
Qed.

Lemma showsDropZone_file (w : World) :
  showsDropZone w = true -> file w = None.
Proof.
  unfold showsDropZone. destruct (file w); [discriminate | reflexivity].
Qed.

Lemma Rest_handleFiles (files : option (list File)) (rnd : jsstring)
      (w : World) :
  Rest w -> showsDropZone w = true -> Rest (handleFiles files rnd w).
Proof.
  intros HR Hdrop. pose proof (showsDropZone_file w Hdrop) as Hfile.
  destruct (Rest_no_result HR (or_introl Hfile)) as [Hno Hobj].
  unfold handleFiles. destruct files as [[|selectedFile others]|];
    try exact HR.
  destruct HR as (Hst & Hlive & Hres & Hacc & Hcalls).
  destruct (endsWith (toLowerCase (file_name selectedFile)) (js ".doc")) eqn:E;
    repeat split; cbn; unfold liveURLs; cbn; rewrite ?Hobj; auto;
    try discriminate; try no_result.
  intros f [= <-]. exact E.
Qed.

Lemma Rest_setTargetFormat (fmt : FileFormat) (w : World) :
  Rest w -> Rest (setTargetFormat fmt w).
Proof. intros H; exact H. Qed.

Lemma Rest_reset (w : World) : Rest w -> Rest (reset w).
Proof.
  intros (Hst & Hlive & Hres & Hacc & Hcalls). unfold reset.
  repeat split; cbn; try discriminate; try no_result.
  - unfold liveURLs in *. destruct (resultUrl (conversion w)) as [u|]; cbn.
    + destruct (objectURLs w) as [|[u' b] [|e l]]; try discriminate.
      cbn in *. injection Hlive as ->. now rewrite Nat.eqb_refl.
    + exact Hlive.
  - destruct (resultUrl (conversion w)); exact Hcalls.
Qed.

(** The invariant holds in every session the page allows. *)
Lemma reachable_inv (s : Session) : reachable s -> SessionInv s.
Proof.
  induction 1 as [|s ev s' _ IH Hstep].
  - repeat split; cbn; try discriminate; auto; no_result.
  - unfold step in Hstep. destruct (blocked s) eqn:Hb; [discriminate|].
    unfold SessionInv in IH. rewrite Hb in IH.
    destruct (inflight s) as [|[ans m] [|x l]] eqn:Hin; [| |contradiction].
    + (* no attempt in flight *)
      destruct ev as [files rnd|fmt|ans| |i].
      * destruct (showsDropZone (world s)) eqn:E; [|discriminate].
        injection Hstep as <-. now apply Rest_handleFiles.
      * destruct (formatEnabled (world s)); [|discriminate].
        injection Hstep as <-. exact IH.
      * destruct (showsStart (world s)) eqn:E; [|discriminate].
        injection Hstep as <-.
        unfold showsStart, showsDropZone in E.
        destruct (file (world s)) as [f|] eqn:Hf.
        2:{ destruct (isError (world s)); discriminate. }
        apply resume_inv, safe_startConversion with (f := f); auto.
        apply andb_true_iff in E. destruct E as [_ E].
        destruct (status (conversion (world s))); auto; discriminate.
      * destruct (showsReset (world s)); [|discriminate].
        injection Hstep as <-. now apply Rest_reset.
      * destruct i; discriminate.
    + (* an attempt is in flight *)
      destruct IH as (_ & Haw & Hsafe).
      destruct (safe_settle ans m (world s) Haw Hsafe) as [HMid Hsafe'].
      destruct (Mid_offers_nothing HMid) as (E1 & E2 & E3 & E4).
      destruct ev as [files rnd|fmt|ans'| |i];
        rewrite ?E1, ?E2, ?E3, ?E4 in Hstep; try discriminate.
      destruct i as [|[|i]]; try discriminate.
      injection Hstep as <-. now apply resume_inv.
Qed.



Lemma inv_Mid_or_Rest (s : Session) :
  SessionInv s -> Mid (world s) \/ Rest (world s).
Proof.
  unfold SessionInv. destruct (inflight s) as [|[ans m] [|x l]];
    [destruct (blocked s); auto | | contradiction].
  intros (_ & Haw & Hsafe). left. now apply (safe_settle ans m).
Qed.

(** A session the page allows is in [converting] only while an
    attempt is in flight or the event loop is blocked. *)
Lemma converting_only_in_flight (s : Session) :
  reachable s -> inflight s = [] -> blocked s = false ->
  status (conversion (world s)) <> converting.
Proof.
  intros Hr Hin Hb. apply reachable_inv in Hr. unfold SessionInv in Hr.
  rewrite Hin, Hb in Hr. apply Hr.
Qed.

End SessionFacts.

(* ================================================================== *)
(** * Sessions: claims C5, C6, C7, C10 *)
(* ================================================================== *)

Section SessionClaims.
Import JsString RegExp Types Encoder Pdf App Invariant Examples.

Lemma run_reachable (evs : list Event) (s0 s : Session) :
  reachable s0 ->
  fold_left (fun s ev => match s with
                         | Some s => step s ev
                         | None => None
                         end) evs (Some s0) = Some s ->
  reachable s.
Proof.
  revert s0; induction evs as [|ev evs IH]; intros s0 H0; cbn [fold_left].
  - now intros [= <-].
  - destruct (step s0 ev) as [s1|] eqn:E.
    + apply IH. now apply reach_step with (s := s0) (ev := ev).
    + intros H. exfalso. clear -H.
      induction evs as [|ev' evs IH']; cbn in H; [discriminate | auto].
Qed.

Lemma reachable_sessionAfter (evs : list Event) : reachable (sessionAfter evs).
Proof.
  unfold sessionAfter. destruct (run evs) as [s|] eqn:E.
  - apply (run_reachable evs reach_initial E).
  - apply reach_initial.
Qed.




(** C6.  A file whose name ends, in any case, in [.doc] is rejected at
    its selection: the state is [error] with the message that asks for
    the .docx format, the file held is the one held before, the
    extractor is not called, the page does not offer to start a
    conversion, and in no session is the extractor ever called for a
    file of such a name. *)
Theorem legacy_doc_is_rejected (s : Session) (selectedFile : File)
        (others : list File) (rnd : jsstring) :
  endsWith (toLowerCase (file_name selectedFile)) (js ".doc") = true ->
  let w := world s in
  let w' := handleFiles (Some (selectedFile :: others)) rnd w in
  w' = setConversion (mkConversion error 0 (Some docRejected) None None) w
  /\ includes docRejected (js ".docx") = true
  /\ file w' = file w
  /\ extractorCalls w' = extractorCalls w
  /\ (forall s',
        step s (SelectFiles (Some (selectedFile :: others)) rnd) = Some s' ->
        world s' = w' /\ file w' = None /\ inflight s' = inflight s
        /\ forall ans, step s' (ClickStart ans) = None)
  /\ (forall r call,
        reachable r -> In call (extractorCalls (world r)) ->
        fst call <> selectedFile).
Proof.
  intros Hdoc w w'.
  assert (E : w' = setConversion
                     (mkConversion error 0 (Some docRejected) None None) w).
  { unfold w', handleFiles. now rewrite Hdoc. }
  split; [exact E|]. split; [reflexivity|].
  rewrite E. split; [reflexivity|]. split; [reflexivity|]. split.
  - intros s' Hstep. unfold step in Hstep.
    destruct (blocked s); [discriminate|].
    destruct (showsDropZone (world s)) eqn:Hdrop; [|discriminate].
    injection Hstep as <-. unfold handleFiles. rewrite Hdoc.
    cbn [world inflight].
    split; [reflexivity|].
    split; [exact (showsDropZone_file (world s) Hdrop)|].
    split; [reflexivity|].
    intros ans. unfold step. cbn [blocked world].
    unfold showsStart, isError. cbn.
    now rewrite andb_false_r.
  - intros r call Hr Hin Heq.
    apply reachable_inv, inv_Mid_or_Rest in Hr.
    assert (Hacc : onlyAccepted (world r)).
    { destruct Hr as [(_ & _ & _ & _ & H)|(_ & _ & _ & H)]; exact H. }
    destruct Hacc as [_ Hcalls]. rewrite Forall_forall in Hcalls.
    specialize (Hcalls call Hin). unfold accepted in Hcalls.
    rewrite Heq in Hcalls. congruence.
Qed.

Lemma legacy_doc_is_rejected_witness :
  endsWith (toLowerCase (file_name report_doc)) (js ".doc") = true
  /\ handleFiles (Some [report_doc]) (js "k3j9x0a1b") (world initial)
     = setConversion (mkConversion error 0 (Some docRejected) None None)
                     (world initial).
Proof.
  split; [reflexivity|].
  exact (proj1 (@legacy_doc_is_rejected initial report_doc []
                  (js "k3j9x0a1b") eq_refl)).
Defined.

(** The suggested name keeps what stands before the first dot of
    the source name. *)
Lemma split_first (base rest : jsstring) :
  ~ In DOT base -> split DOT (base ++ DOT :: rest) = base :: split DOT rest.
Proof.
  induction base as [|c base IH]; intros Hb; cbn [app split].
  - now rewrite N.eqb_refl.
  - destruct (N.eqb_spec c DOT) as [->|Hc].
    + exfalso. apply Hb. now left.
    + rewrite IH; auto. intros H. apply Hb. now right.
Qed.

Lemma resultNameOf_first_dot (base rest : jsstring) (fmt : FileFormat) :
  ~ In DOT base ->
  resultNameOf (base ++ DOT :: rest) fmt
  = base ++ js "." ++ toLowerCase (formatName fmt).
Proof.
  intros Hb. unfold resultNameOf. now rewrite split_first.
Qed.

(** C7, where the code departs from it.  For the source name
    [my.report.txt] and the target PDF the suggested name is [my.pdf],
    not [my.report.pdf]: the name is cut at its first dot, not at its
    last. *)
Theorem result_name_cut_at_first_dot :
  resultNameOf (js "my.report.txt") PDF = js "my.pdf"
  /\ resultNameOf (js "my.report.txt") PDF <> js "my.report.pdf"
  /\ resultNameOf (js "report.txt") PDF = js "report.pdf".
Proof.
  repeat split; try reflexivity. vm_compute. discriminate.
Qed.




End SessionClaims.

(* ================================================================== *)
(** * More on [trim] and on the encoders *)
(* ================================================================== *)

Section CleanFacts.
Import JsString Clean.

Lemma trimStart_clean (s : jsstring) : startsClean (trimStart s).
Proof.
  induction s as [|c s IH]; simpl; auto.
  destruct (isWhiteSpace c) eqn:E; simpl; auto.
Qed.

Lemma trimStart_fixed (s : jsstring) : startsClean s -> trimStart s = s.
Proof.
  destruct s as [|c s]; simpl; auto. now intros ->.
Qed.

Lemma trimEnd_clean (s : jsstring) : endsClean (trimEnd s).
Proof.
  unfold endsClean, trimEnd. rewrite rev_involutive. apply trimStart_clean.
Qed.

Lemma trimEnd_fixed (s : jsstring) : endsClean s -> trimEnd s = s.
Proof.
  unfold endsClean, trimEnd. intros H.
  rewrite trimStart_fixed by exact H. apply rev_involutive.
Qed.

Lemma trimEnd_startsClean (s : jsstring) :
  startsClean s -> startsClean (trimEnd s).
Proof.
  destruct (trimEnd_prefix s) as [q [Hs _]]. intros H.
  destruct (trimEnd s) as [|c p]; simpl; auto.
  rewrite Hs in H. exact H.
Qed.

Lemma trim_clean (s : jsstring) : startsClean (trim s) /\ endsClean (trim s).
Proof.
  unfold trim. split.
  - apply trimEnd_startsClean, trimStart_clean.
  - apply trimEnd_clean.
Qed.

Lemma trim_fixed (s : jsstring) : startsClean s -> endsClean s -> trim s = s.
Proof.
  intros H1 H2. unfold trim. rewrite trimStart_fixed by exact H1.
  now apply trimEnd_fixed.
Qed.

Lemma trim_idempotent (s : jsstring) : trim (trim s) = trim s.
Proof.
  destruct (trim_clean s). now apply trim_fixed.
Qed.

Lemma trim_fixed_clean (s : jsstring) :
  trim s = s -> startsClean s /\ endsClean s.
Proof.
  intros H. rewrite <- H. apply trim_clean.
Qed.

End CleanFacts.

Section EncoderExtras.
Import JsString RegExp Encoder Fragment Clean.

(** A match of a pattern of the encoders contains a [>]. *)
Lemma match_has_GT (mid : regexp) (l : char16 -> bool) :
  (forall x, l x = true -> x = GT) ->
  forall s, matchLen (mid ++ [Atom l Once]) s <> None -> In GT s.
Proof.
  intros Hl. induction mid as [|a mid IH]; intros s.
  - destruct s as [|c s]; cbn; [congruence|].
    destruct (l c) eqn:E; [|congruence]. apply Hl in E. subst. now left.
  - cbn [app matchLen].
    assert (Hone : forall k : jsstring -> option nat,
               (forall t, k t <> None -> In GT t) ->
               forall t, matchOne (cls a) k t <> None -> In GT t).
    { intros k Hk [|c t]; cbn; [congruence|].
      destruct (cls a c); [|congruence].
      destruct (k t) eqn:E; cbn; [|congruence].
      intros _. right. apply Hk. congruence. }
    assert (Hstar : forall t, matchStar (cls a) (matchLen (mid ++ [Atom l Once])) t
                              <> None -> In GT t).
    { induction t as [|c t IHt]; cbn [matchStar].
      - apply IH.
      - destruct (cls a c); [|apply IH].
        destruct (matchStar (cls a) (matchLen (mid ++ [Atom l Once])) t) eqn:E.
        + intros _. right. apply IHt. congruence.
        + apply IH. }
    destruct (qnt a).
    + now apply Hone.
    + destruct (matchOne (cls a) (matchLen (mid ++ [Atom l Once])) s) eqn:E.
      * intros _. apply (Hone _ IH). congruence.
      * apply IH.
    + apply Hstar.
    + now apply Hone.
Qed.

(** Where one of them matches, a tag starts. *)
Lemma match_starts_tag (f g l : char16 -> bool) (mid : regexp) :
  (forall x, f x = true -> x = LT) ->
  g GT = false ->
  (forall x, l x = true -> x = GT) ->
  forall s,
    matchLen (Atom f Once :: Atom g Once :: mid ++ [Atom l Once]) s <> None ->
    matchLen re_tag s <> None.
Proof.
  intros Hf Hg Hl s. rewrite matchLen_re_tag.
  destruct s as [|c [|x s]]; cbn [matchLen qnt cls matchOne]; try congruence.
  - destruct (f c); cbn; congruence.
  - destruct (f c) eqn:Ef; [|congruence]. apply Hf in Ef. subst c.
    destruct (g x) eqn:Eg; [|cbn; congruence].
    rewrite N.eqb_refl.
    destruct (N.eqb_spec x GT) as [->|Hx]; [congruence|].
    destruct (matchLen (mid ++ [Atom l Once]) s) eqn:E; [|cbn; congruence].
    intros _. cbn.
    assert (Hin : In GT s) by (apply (@match_has_GT mid l Hl); congruence).
    destruct (untilGT s) eqn:Eu; cbn; [congruence|].
    now apply untilGT_None in Eu.
Qed.

(** Without a tag in it, a string is left as it is by every pass. *)
Lemma replace_without_tag (re : regexp) (rep s : jsstring) :
  (forall t, matchLen re t <> None -> matchLen re_tag t <> None) ->
  test re_tag s = false -> replace re rep s = s.
Proof.
  intros Hre. induction s as [|c s IH]; intros H.
  - apply replace_nil. destruct (matchLen re []) eqn:E; auto.
    exfalso. apply (Hre []); [congruence | now rewrite matchLen_re_tag].
  - cbn [test] in H.
    destruct (matchLen re_tag (c :: s)) eqn:E; [discriminate|].
    rewrite replace_keep, IH; auto.
    destruct (matchLen re (c :: s)) eqn:E'; auto.
    exfalso. apply (Hre (c :: s)); congruence.
Qed.

Ltac starts_tag g mid :=
  exact (@match_starts_tag (chr_i LT) g (chr_i GT) mid chr_i_LT eq_refl chr_i_GT).

Lemma tag_h1_open t : matchLen re_h1_open t <> None -> matchLen re_tag t <> None.
Proof. revert t. starts_tag (chr_i 104%N) (lit_i "1"). Qed.
Lemma tag_h1_close t : matchLen re_h1_close t <> None -> matchLen re_tag t <> None.
Proof. revert t. starts_tag (chr_i SLASH) (lit_i "h1"). Qed.
Lemma tag_h2_open t : matchLen re_h2_open t <> None -> matchLen re_tag t <> None.
Proof. revert t. starts_tag (chr_i 104%N) (lit_i "2"). Qed.
Lemma tag_h2_close t : matchLen re_h2_close t <> None -> matchLen re_tag t <> None.
Proof. revert t. starts_tag (chr_i SLASH) (lit_i "h2"). Qed.
Lemma tag_p_open t : matchLen re_p_open t <> None -> matchLen re_tag t <> None.
Proof. revert t. starts_tag (chr_i 112%N) (@nil atom). Qed.
Lemma tag_p_close t : matchLen re_p_close t <> None -> matchLen re_tag t <> None.
Proof. revert t. starts_tag (chr_i SLASH) (lit_i "p"). Qed.
Lemma tag_br t : matchLen re_br t <> None -> matchLen re_tag t <> None.
Proof.
  revert t.
  starts_tag (chr_i 98%N)
             (lit_i "r" ++ [Atom isWhiteSpace Many0; Atom (chr_i SLASH) Maybe]).
Qed.
Lemma tag_li_open t : matchLen re_li_open t <> None -> matchLen re_tag t <> None.
Proof. revert t. starts_tag (chr_i 108%N) (lit_i "i"). Qed.
Lemma tag_li_close t : matchLen re_li_close t <> None -> matchLen re_tag t <> None.
Proof. revert t. starts_tag (chr_i SLASH) (lit_i "li"). Qed.

Lemma encodeMD_without_tag (s : jsstring) :
  test re_tag s = false -> encodeMD s = s.
Proof.
  intros H. unfold encodeMD.
  rewrite (@replace_without_tag re_h1_open _ s tag_h1_open H).
  rewrite (@replace_without_tag re_h1_close _ s tag_h1_close H).
  rewrite (@replace_without_tag re_h2_open _ s tag_h2_open H).
  rewrite (@replace_without_tag re_h2_close _ s tag_h2_close H).
  rewrite (@replace_without_tag re_p_open _ s tag_p_open H).
  rewrite (@replace_without_tag re_p_close _ s tag_p_close H).
  rewrite (@replace_without_tag re_br _ s tag_br H).
  rewrite (@replace_without_tag re_li_open _ s tag_li_open H).
  rewrite (@replace_without_tag re_li_close _ s tag_li_close H).
  apply replace_without_tag; auto.
Qed.

Lemma encodeTXT_without_tag (s : jsstring) :
  test re_tag s = false -> encodeTXT s = trim s.
Proof.
  intros H. unfold encodeTXT.
  rewrite (@replace_without_tag re_br _ s tag_br H).
  rewrite (@replace_without_tag re_p_close _ s tag_p_close H).
  rewrite replace_without_tag; auto.
Qed.

(** X1.  Both text encoders are idempotent: the Markdown or the
    Plain-Text payload of any fragment, encoded once more, is
    unchanged. *)
Theorem text_encoders_idempotent (htmlContent : jsstring) :
  encodeMD (encodeMD htmlContent) = encodeMD htmlContent
  /\ encodeTXT (encodeTXT htmlContent) = encodeTXT htmlContent.
Proof.
  split.
  - apply encodeMD_without_tag, strip_no_tag.
  - rewrite encodeTXT_without_tag by apply trim_no_tag, strip_no_tag.
    unfold encodeTXT. apply trim_idempotent.
Qed.

Lemma test_without_LT (s : jsstring) : ~ In LT s -> test re_tag s = false.
Proof.
  induction s as [|c s IH]; intros H; cbn [test]; rewrite matchLen_re_tag.
  - reflexivity.
  - destruct (N.eqb_spec c LT) as [->|Hc]; [exfalso; apply H; now left|].
    rewrite IH by (intros Hin; apply H; now right).
    now destruct s.
Qed.

(** X2.  A fragment without any [<] is text: the Markdown encoder
    returns it as it is and the Plain-Text encoder returns it trimmed;
    a [>] in it is kept. *)
Theorem text_without_markup_is_kept (htmlContent : jsstring) :
  ~ In LT htmlContent ->
  encodeMD htmlContent = htmlContent
  /\ encodeTXT htmlContent = trim htmlContent.
Proof.
  intros H. apply test_without_LT in H. split.
  - now apply encodeMD_without_tag.
  - now apply encodeTXT_without_tag.
Qed.

Lemma text_without_markup_is_kept_witness :
  ~ In LT (js " a > b ")
  /\ encodeMD (js " a > b ") = js " a > b "
  /\ encodeTXT (js " a > b ") = js "a > b".
Proof.
  assert (H : ~ In LT (js " a > b ")).
  { vm_compute. intros H. repeat (destruct H as [H|H]; [discriminate H|]).
    exact H. }
  split; [exact H|].
  destruct (@text_without_markup_is_kept (js " a > b ") H) as [Hmd Htxt].
  split; [exact Hmd|]. rewrite Htxt. reflexivity.
Defined.

End EncoderExtras.

(* ================================================================== *)
(** * The content extractor ([src/services/geminiService.ts]) *)
(* ================================================================== *)

Section GeminiFacts.
Import JsString RegExp Types Encoder App Anchored Clean GeminiService.

Lemma cleanup_trimmed (s : jsstring) : trim (cleanup s) = cleanup s.
Proof. unfold cleanup. apply trim_idempotent. Qed.

Lemma isEmpty_false (s : jsstring) : isEmpty s = false -> s <> [].
Proof. destruct s; [discriminate | discriminate]. Qed.

Lemma or_else_not_empty (a : option jsstring) (b : jsstring) :
  b <> [] -> or_else a b <> [].
Proof.
  intros Hb. destruct a as [[|c s]|]; cbn; auto; discriminate.
Qed.

(** X3.  What [reconstructContentToHtml] resolves to is never empty
    and has no white space at its ends. *)
Theorem reconstructed_content_is_trimmed (env : Env) (file : File)
        (targetFormat result : jsstring) :
  reconstructContentToHtml env file targetFormat = inr result ->
  result <> [] /\ trim result = result.
Proof.
  unfold reconstructContentToHtml, reconstructBody.
  destruct (newClient env); [discriminate|].
  destruct (contentPartOf env file) as [e|part]; [discriminate|].
  destruct (generateContent env (requestFor part)) as [e|text];
    [discriminate|].
  destruct (isEmpty (cleanup _)) eqn:E; [discriminate|].
  intros [= <-]. split.
  - now apply isEmpty_false.
  - apply cleanup_trimmed.
Qed.


(** X5.  A file that is not sent as it is and whose text is empty or
    white space only is rejected with the empty-content message,
    whatever the model would answer: the model is not asked. *)
Theorem empty_content_is_rejected (env : Env) (file : File)
        (targetFormat text : jsstring) :
  newClient env = None ->
  existsb (JsString.eqb (file_type file)) SUPPORTED_BINARY_MIMES = false ->
  extractText env file = inr text ->
  trim text = [] ->
  reconstructContentToHtml env file targetFormat = inl (Error emptyContent)
  /\ forall answer,
      reconstructContentToHtml
        (mkEnv (newClient env) (readAsDataURL env) (mammoth env)
               (arrayBuffer env) (fileText env) answer)
        file targetFormat
      = inl (Error emptyContent).
Proof.
  intros Hc Hmime Htext Htrim.
  assert (H : forall env', newClient env' = None ->
                           extractText env' file = inr text ->
                           reconstructContentToHtml env' file targetFormat
                           = inl (Error emptyContent)).
  { intros env' Hc' Htext'.
    unfold reconstructContentToHtml, reconstructBody, contentPartOf.
    rewrite Hc', Hmime, Htext', Htrim. cbn [isEmpty].
    rewrite orb_true_r. cbn [message Error].
    assert (E : or_else (Some emptyContent) serverBusy = emptyContent)
      by (vm_compute; reflexivity).
    now rewrite E. }
  split; [now apply H|].
  intros answer. apply H; [exact Hc | exact Htext].
Qed.

Lemma reconstructed_content_is_trimmed_witness :
  reconstructContentToHtml ExtractorExamples.envFenced Examples.notes_txt
                           (js "MD")
  = inr (js "<p>Hello</p>")
  /\ trim (js "<p>Hello</p>") = js "<p>Hello</p>".
Proof.
  assert (H : reconstructContentToHtml ExtractorExamples.envFenced
                                       Examples.notes_txt (js "MD")
              = inr (js "<p>Hello</p>")) by (vm_compute; reflexivity).
  split; [exact H|].
  exact (proj2 (@reconstructed_content_is_trimmed _ _ _ _ H)).
Defined.


Lemma empty_content_is_rejected_witness :
  extractText ExtractorExamples.envBlank Examples.notes_txt = inr (js "  ")
  /\ reconstructContentToHtml ExtractorExamples.envBlank Examples.notes_txt
                              (js "MD")
     = inl (Error emptyContent).
Proof.
  split; [reflexivity|].
  apply (@empty_content_is_rejected ExtractorExamples.envBlank
           Examples.notes_txt (js "MD") (js "  "));
    vm_compute; reflexivity.
Defined.

(** ** The code fence *)

Lemma star_whitespace (ws rest : jsstring) :
  forallb isWhiteSpace ws = true -> startsClean rest ->
  matchStar isWhiteSpace (fun _ => Some 0%nat) (ws ++ rest)
  = Some (length ws).
Proof.
  intros Hws Hrest. induction ws as [|c ws IH]; cbn [app length].
  - destruct rest as [|c rest]; cbn; auto. cbn in Hrest. now rewrite Hrest.
  - cbn in Hws. apply andb_true_iff in Hws. destruct Hws as [Hc Hws].
    cbn [matchStar]. now rewrite Hc, IH.
Qed.

Lemma skipn_length_app (a b : jsstring) : skipn (length a) (a ++ b) = b.
Proof. induction a; cbn; auto. Qed.

Lemma html_fence_taken_off (ws rest : jsstring) :
  forallb isWhiteSpace ws = true -> startsClean rest ->
  replaceAtStart re_fence_html [] (js "```html" ++ ws ++ rest) = rest.
Proof.
  intros Hws Hrest. unfold replaceAtStart.
  assert (E : matchLen re_fence_html (js "```html" ++ ws ++ rest)
              = Some (7 + length ws)%nat).
  { change (matchLen re_fence_html (js "```html" ++ ws ++ rest))
      with (option_map S (option_map S (option_map S (option_map S
             (option_map S (option_map S (option_map S
               (matchStar isWhiteSpace (fun _ => Some 0%nat)
                          (ws ++ rest))))))))).
    now rewrite star_whitespace. }
  rewrite E. cbn [app]. change (js "```html" ++ ws ++ rest)
    with (96 :: 96 :: 96 :: 104 :: 116 :: 109 :: 108 :: ws ++ rest)%N.
  cbn [Nat.add skipn]. apply skipn_length_app.
Qed.

Lemma no_fence_at_start (re : regexp) (c : char16) (s : jsstring) :
  (re = re_fence_html \/ re = re_fence_open) ->
  c <> BACKTICK ->
  replaceAtStart re [] (c :: s) = c :: s.
Proof.
  intros Hre Hc. unfold replaceAtStart.
  assert (E : matchLen re (c :: s) = None).
  { destruct Hre as [-> | ->]; cbn [re_fence_html re_fence_open].
    - change (matchLen re_fence_html (c :: s))
        with (if chr_i BACKTICK c
              then option_map S (matchLen (tl re_fence_html) s) else None).
      destruct (chr_i BACKTICK c) eqn:E; auto.
      exfalso. apply Hc. unfold chr_i, canonicalize, BACKTICK in E. cbn in E.
      destruct ((97 <=? c)%N && (c <=? 122)%N) eqn:E';
        apply N.eqb_eq in E; auto.
      apply andb_true_iff in E'. destruct E' as [E1 E2].
      apply N.leb_le in E1, E2. lia.
    - change (matchLen re_fence_open (c :: s))
        with (if chr BACKTICK c
              then option_map S (matchLen (tl re_fence_open) s) else None).
      destruct (chr BACKTICK c) eqn:E; auto.
      apply chr_eq in E. contradiction. }
  now rewrite E.
Qed.

Lemma endsClean_tail (c : char16) (u : jsstring) :
  endsClean (c :: u) -> endsClean u.
Proof.
  unfold endsClean. cbn [rev]. destruct (rev u) as [|d r]; cbn; auto.
Qed.

Lemma close_fence_not_inside (u tail : jsstring) :
  u <> [] -> endsClean u -> ~ In BACKTICK u ->
  matchThen re_fence_close atEnd (u ++ tail) = None.
Proof.
  change (matchThen re_fence_close atEnd)
    with (matchStar isWhiteSpace (matchThen (lit "```") atEnd)).
  assert (K : forall c t, c <> BACKTICK ->
                          matchThen (lit "```") atEnd (c :: t) = None).
  { intros c t Hc.
    change (matchThen (lit "```") atEnd (c :: t))
      with (if chr BACKTICK c
            then option_map S (matchThen (tl (lit "```")) atEnd t) else None).
    destruct (chr BACKTICK c) eqn:E; auto. apply chr_eq in E. contradiction. }
  induction u as [|c u IH]; intros Hne Hclean Hno; [congruence|].
  assert (Hc : c <> BACKTICK) by (intros ->; apply Hno; now left).
  cbn [app matchStar]. destruct u as [|d u].
  - unfold endsClean in Hclean. cbn in Hclean. rewrite Hclean.
    now apply K.
  - rewrite IH; [| discriminate | now apply endsClean_tail in Hclean
                 | intros H; apply Hno; now right].
    rewrite K by exact Hc. now destruct (isWhiteSpace c).
Qed.

Lemma close_fence_behind (body tail : jsstring) :
  endsClean body -> ~ In BACKTICK body ->
  replaceToEnd re_fence_close [] (body ++ tail)
  = body ++ replaceToEnd re_fence_close [] tail.
Proof.
  induction body as [|c body IH]; intros Hclean Hno; auto.
  cbn [app replaceToEnd].
  change (c :: body ++ tail) with ((c :: body) ++ tail).
  rewrite close_fence_not_inside by (auto; discriminate).
  rewrite IH; auto.
  - now apply endsClean_tail in Hclean.
  - intros H; apply Hno; now right.
Qed.

Lemma close_fence_taken_off (ws : jsstring) :
  forallb isWhiteSpace ws = true ->
  replaceToEnd re_fence_close [] (ws ++ js "```") = [].
Proof.
  intros Hws.
  assert (E : matchThen re_fence_close atEnd (ws ++ js "```") <> None).
  { change (matchThen re_fence_close atEnd)
      with (matchStar isWhiteSpace (matchThen (lit "```") atEnd)).
    induction ws as [|c ws IH]; [vm_compute; discriminate|].
    cbn in Hws. apply andb_true_iff in Hws. destruct Hws as [Hc Hws].
    cbn [app matchStar]. rewrite Hc.
    destruct (matchStar isWhiteSpace (matchThen (lit "```") atEnd)
                        (ws ++ js "```")); [discriminate|].
    now elim (IH Hws). }
  destruct (ws ++ js "```") as [|c t] eqn:Es.
  - now destruct ws.
  - cbn [replaceToEnd].
    destruct (matchThen re_fence_close atEnd (c :: t)); [|congruence].
    reflexivity.
Qed.

(** X6.  The code fence a model puts around its answer is taken off:
    for a fragment without a backtick and without white space at its
    ends, the answer [```html], white space, the fragment, white space,
    [```] is cleaned up to the fragment, and the fragment without a
    fence is left as it is. *)
Theorem fence_is_taken_off (ws1 ws2 body : jsstring) :
  forallb isWhiteSpace ws1 = true ->
  forallb isWhiteSpace ws2 = true ->
  body <> [] -> trim body = body -> ~ In BACKTICK body ->
  cleanup (js "```html" ++ ws1 ++ body ++ ws2 ++ js "```") = body
  /\ cleanup body = body.
Proof.
  intros H1 H2 Hne Htrim Hno.
  destruct (@trim_fixed_clean body Htrim) as [Hstart Hend].
  destruct body as [|c body]; [congruence|].
  assert (Hc : c <> BACKTICK) by (intros ->; apply Hno; now left).
  unfold cleanup. split.
  - rewrite html_fence_taken_off by auto.
    cbn [app]. rewrite no_fence_at_start by auto.
    change (c :: body ++ ws2 ++ js "```")
      with ((c :: body) ++ ws2 ++ js "```").
    rewrite close_fence_behind, close_fence_taken_off by auto.
    now rewrite app_nil_r.
  - rewrite !no_fence_at_start by auto.
    rewrite <- (app_nil_r (c :: body)) at 1.
    rewrite close_fence_behind by auto.
    change (replaceToEnd re_fence_close [] []) with (@nil char16).
    now rewrite app_nil_r.
Qed.

Lemma fence_is_taken_off_witness :
  trim (js "<p>Hello</p>") = js "<p>Hello</p>"
  /\ cleanup ExtractorExamples.fencedAnswer = js "<p>Hello</p>".
Proof.
  split; [reflexivity|].
  refine (proj1 (@fence_is_taken_off [LF] [LF] (js "<p>Hello</p>")
                   eq_refl eq_refl _ eq_refl _)).
  - discriminate.
  - vm_compute. intros H. repeat (destruct H as [H|H]; [discriminate H|]).
    exact H.
Defined.

End GeminiFacts.

(* ================================================================== *)
(** * Conversion attempts from start to end *)
(* ================================================================== *)

Section AttemptExtras.
Import JsString RegExp Types Encoder Pdf App GeminiService Examples.
Local Open Scope Q_scope.

#[local] Arguments encodeMD : simpl never.
#[local] Arguments encodeTXT : simpl never.
#[local] Arguments docxContent : simpl never.
#[local] Arguments renderMarkup : simpl never.
#[local] Arguments paginate : simpl never.
#[local] Arguments resultNameOf : simpl never.
#[local] Arguments getElementById : simpl never.

Ltac run_exec :=
  cbn [exec bind tryCatch update get settled conversionFailed
       App.reconstructContentToHtml setTimeout html2canvas jsPDF_a4 fetch
       res_blob URL_createObjectURL].

Ltac step_run :=
  run_exec; unfold settled;
  match goal with
  | |- context [match ?x with _ => _ end] => destruct x eqn:?
  end.

(** X7.  An attempt calls the extractor once, for the file held and
    the target format selected when it starts, and changes neither of
    the two; without a file held it does nothing at all. *)
Theorem one_extractor_call_per_attempt (ans : Answers) (w : World) :
  let w' := fst (exec ans startConversion w) in
  match file w with
  | Some f =>
    extractorCalls w' = extractorCalls w ++ [(blob f, targetFormat w)]
    /\ file w' = file w
    /\ targetFormat w' = targetFormat w
  | None => exec ans startConversion w = (w, Returned)
  end.
Proof.
  destruct w as [wf wt wc wp wh wo wi we].
  unfold startConversion, conversionBody. cbn [exec file].
  destruct wf as [f|]; [|reflexivity].
  repeat step_run; cbn in *; subst; repeat split; congruence.
Qed.

(** X8.  With the extractor's answer [htmlContent], the hidden
    container in place and the target DOCX, MD or TXT, the attempt ends
    in [completed] with progress 100, the suggested name, the answer as
    preview and a new object URL, live, for the payload: the answer
    inside the Office envelope behind a byte order mark for DOCX, its
    Markdown for MD, its plain text for TXT.  The URLs that were live
    stay live. *)
Theorem text_conversion_completes (ans : Answers) (w : World) (f : AppFile)
        (htmlContent : jsstring) :
  file w = Some f ->
  ans_reconstructContentToHtml ans = inr htmlContent ->
  hiddenRender w <> None ->
  isRaster (targetFormat w) = false ->
  let w' := fst (exec ans startConversion w) in
  snd (exec ans startConversion w) = Returned
  /\ conversion w'
     = mkConversion completed 100 None (Some (issued w))
                    (Some (resultNameOf (name f) (targetFormat w)))
  /\ previewHtml w' = htmlContent
  /\ hiddenRender w' = Some (renderMarkup (js "render-root") htmlContent)
  /\ objectURLs w'
     = (issued w,
        match targetFormat w with
        | DOCX => mkBlob [StringPart [BOM];
                          StringPart (docxContent htmlContent)]
                         (js "application/msword")
        | MD => mkBlob [StringPart (encodeMD htmlContent)]
                       (js "text/markdown;charset=utf-8")
        | _ => mkBlob [StringPart (encodeTXT htmlContent)]
                      (js "text/plain;charset=utf-8")
        end) :: objectURLs w.
Proof.
  destruct w as [wf wt wc wp wh wo wi we]. cbn [file hiddenRender targetFormat
    issued objectURLs]. intros -> Hans Hc Hfmt.
  destruct wh as [c|]; [|congruence].
  unfold startConversion, conversionBody. cbn [exec file]. run_exec.
  rewrite Hans. run_exec. cbn [hiddenRender setConversion setPreviewHtml
    logExtractorCall conversion]. run_exec.
  destruct wt; try discriminate; cbn; repeat split.
Qed.

Lemma text_conversion_completes_witness :
  let w := worldAfter ExtractorExamples.selected in
  file w = Some ExtractorExamples.notes
  /\ conversion (fst (exec answers startConversion w))
     = mkConversion completed 100 None (Some 0%nat) (Some (js "notes.md"))
  /\ objectURLs (fst (exec answers startConversion w))
     = [(0%nat, mkBlob [StringPart (js "Hello" ++ [LF; LF])]
                       (js "text/markdown;charset=utf-8"))].
Proof.
  intros w.
  assert (Hfile : file w = Some ExtractorExamples.notes)
    by (vm_compute; reflexivity).
  assert (Hans : ans_reconstructContentToHtml answers = inr (js "<p>Hello</p>"))
    by reflexivity.
  assert (Hc : hiddenRender w <> None) by (vm_compute; discriminate).
  assert (Hfmt : isRaster (targetFormat w) = false)
    by (vm_compute; reflexivity).
  split; [exact Hfile|].
  destruct (@text_conversion_completes answers w ExtractorExamples.notes
              (js "<p>Hello</p>") Hfile Hans Hc Hfmt)
    as (_ & Hconv & _ & _ & Hurls).
  split.
  - rewrite Hconv. vm_compute. reflexivity.
  - rewrite Hurls. vm_compute. reflexivity.
Defined.






(** X11.  When the extractor is [reconstructContentToHtml] and it
    rejects, the attempt ends in [error] with the message of the
    rejection, which is not empty; the timeout message of [App] is not
    used. *)
Theorem extractor_rejection_is_shown (env : Env) (ans : Answers) (w : World)
        (f : AppFile) (e : Thrown) :
  file w = Some f ->
  newClient env = None ->
  GeminiService.reconstructContentToHtml env (blob f)
                                         (formatName (targetFormat w))
  = inl e ->
  exists msg,
    e = Error msg /\ msg <> []
    /\ conversion (fst (exec (answersWith env (blob f) (targetFormat w) ans)
                            startConversion w))
       = mkConversion error 0 (Some msg) None None.
Proof.
  intros Hfile Hclient Hrej.
  assert (Hmsg : exists msg, e = Error msg /\ msg <> []).
  { unfold GeminiService.reconstructContentToHtml in Hrej.
    rewrite Hclient in Hrej.
    destruct (reconstructBody env (blob f)) as [inner|r]; [|discriminate].
    injection Hrej as <-. eexists. split; [reflexivity|].
    destruct (message inner) as [[|c s]|]; cbn; discriminate. }
  destruct Hmsg as (msg & -> & Hne). exists msg.
  split; [reflexivity|]. split; [exact Hne|].
  unfold startConversion. cbn [exec]. rewrite Hfile.
  cbn [bind update exec]. rewrite exec_tryCatch.
  rewrite (@extraction_failure _ _ f (targetFormat w) (Error msg))
    by (cbn; exact Hrej).
  cbn. destruct msg; [congruence | reflexivity].
Qed.

Lemma extractor_rejection_is_shown_witness :
  let w := worldAfter ExtractorExamples.selected in
  file w = Some ExtractorExamples.notes
  /\ exists msg,
      msg <> []
      /\ conversion (fst (exec (answersWith ExtractorExamples.envDown notes_txt
                                            (targetFormat w) answers)
                               startConversion w))
         = mkConversion error 0 (Some msg) None None.
Proof.
  intros w.
  assert (Hfile : file w = Some ExtractorExamples.notes)
    by (vm_compute; reflexivity).
  assert (Hrej : GeminiService.reconstructContentToHtml
                   ExtractorExamples.envDown (blob ExtractorExamples.notes)
                   (formatName (targetFormat w))
                 = inl (Error serverBusy)) by (vm_compute; reflexivity).
  split; [exact Hfile|]. clearbody w.
  destruct (@extractor_rejection_is_shown ExtractorExamples.envDown answers w
              ExtractorExamples.notes (Error serverBusy) Hfile eq_refl Hrej)
    as (msg & _ & Hne & Hconv).
  exists msg. split; [exact Hne | exact Hconv].
Defined.

End AttemptExtras.

(* ================================================================== *)
(** * File names, reset and the pages of the PDF *)
(* ================================================================== *)

Section HandlerExtras.
Import JsString RegExp Types Encoder Pdf App Invariant.

Lemma eqb_eq (a b : jsstring) : JsString.eqb a b = true <-> a = b.
Proof.
  revert b; induction a as [|x a IH]; intros [|y b]; cbn;
    try (split; [discriminate | discriminate]); [tauto|].
  rewrite andb_true_iff, N.eqb_eq, IH. split.
  - now intros [-> ->].
  - now intros [= -> ->].
Qed.

Lemma endsWith_spec (s suffix : jsstring) :
  endsWith s suffix = true <-> exists pre, s = pre ++ suffix.
Proof.
  unfold endsWith. rewrite andb_true_iff, Nat.leb_le, eqb_eq. split.
  - intros [Hlen Heq].
    exists (firstn (length s - length suffix) s).
    rewrite <- Heq at 2. symmetry. apply firstn_skipn.
  - intros [pre ->]. rewrite length_app. split; [lia|].
    replace (length pre + length suffix - length suffix)%nat
      with (length pre) by lia.
    induction pre; cbn; auto.
Qed.

Lemma toLowerCase1_inv (x : char16) (c : char16) :
  toLowerCase1 x = c ->
  x = c \/ ((65 <= x)%N /\ (x <= 90)%N /\ c = (x + 32)%N).
Proof.
  unfold toLowerCase1.
  destruct ((65 <=? x)%N && (x <=? 90)%N) eqn:E; auto.
  apply andb_true_iff in E. destruct E as [E1 E2].
  apply N.leb_le in E1, E2. intros <-. right. auto.
Qed.

(** X12.  [handleFiles] rejects a file exactly when the last four code
    units of its name are a dot and the letters d, o, c in either
    case; so a name that ends in [.docx] is never rejected. *)
Theorem rejection_by_last_four_units (fileName : jsstring) :
  (endsWith (toLowerCase fileName) (js ".doc") = true <->
   exists pre d o c,
     fileName = pre ++ [DOT; d; o; c]
     /\ (d = 100 \/ d = 68)%N /\ (o = 111 \/ o = 79)%N
     /\ (c = 99 \/ c = 67)%N)
  /\ forall pre, endsWith (toLowerCase (pre ++ js ".docx")) (js ".doc")
                 = false.
Proof.
  assert (Hiff :
    forall n, endsWith (toLowerCase n) (js ".doc") = true <->
      exists pre d o c,
        n = pre ++ [DOT; d; o; c]
        /\ (d = 100 \/ d = 68)%N /\ (o = 111 \/ o = 79)%N
        /\ (c = 99 \/ c = 67)%N).
  { intros n. rewrite endsWith_spec. unfold toLowerCase. split.
    - intros [pre' H]. apply map_eq_app in H.
      destruct H as (pre & l & -> & _ & Hl).
      destruct l as [|x [|d [|o [|c [|? ?]]]]]; try discriminate.
      change (js ".doc") with [46; 100; 111; 99]%N in Hl.
      injection Hl as Hx Hd Ho Hc.
      apply toLowerCase1_inv in Hx, Hd, Ho, Hc.
      exists pre, d, o, c. unfold DOT.
      repeat split; try (f_equal; f_equal); lia.
    - intros (pre & d & o & c & -> & Hd & Ho & Hc).
      exists (map toLowerCase1 pre). rewrite map_app. f_equal.
      destruct Hd as [-> | ->], Ho as [-> | ->], Hc as [-> | ->];
        reflexivity. }
  split; [apply Hiff|].
  intros pre. destruct (endsWith _ _) eqn:E; auto.
  apply Hiff in E. destruct E as (p & d & o & c & Heq & _ & _ & Hc).
  exfalso.
  change (js ".docx") with ([46; 100; 111; 99] ++ [120])%N in Heq.
  change [DOT; d; o; c] with ([DOT; d; o] ++ [c]) in Heq.
  rewrite !app_assoc in Heq. apply app_inj_tail in Heq.
  destruct Heq as [_ Heq]. lia.
Qed.

(** X13.  [reset] from any state: the state is [idle] without file,
    preview and result; the URL of the result that was held is not
    live any more, every other URL is live as before; a second [reset]
    changes nothing. *)
Theorem reset_releases_the_result (w : World) :
  conversion (reset w) = mkConversion idle 0 None None None
  /\ file (reset w) = None
  /\ previewHtml (reset w) = []
  /\ (forall u, resultUrl (conversion w) = Some u ->
                ~ In u (liveURLs (reset w)))
  /\ (forall v, resultUrl (conversion w) <> Some v ->
                (In v (liveURLs (reset w)) <-> In v (liveURLs w)))
  /\ reset (reset w) = reset w.
Proof.
  assert (Hfilter : forall u v l,
             In v (map fst (filter (fun e : ObjectURL * Blob =>
                                      negb (fst e =? u)%nat) l))
             <-> In v (map fst l) /\ v <> u).
  { intros u v l. rewrite !in_map_iff. split.
    - intros ([v' b] & <- & Hin). apply filter_In in Hin.
      destruct Hin as [Hin Hne]. cbn in *. split.
      + now exists (v', b).
      + intros ->. now rewrite Nat.eqb_refl in Hne.
    - intros [([v' b] & <- & Hin) Hne]. exists (v', b). split; auto.
      apply filter_In. split; auto. cbn in *.
      destruct (Nat.eqb_spec v' u); [contradiction | reflexivity]. }
  repeat split.
  - intros u Hu. unfold reset, liveURLs. rewrite Hu.
    cbn. intros Hin. apply Hfilter in Hin. now destruct Hin.
  - unfold reset, liveURLs. destruct (resultUrl (conversion w)) as [u|];
      cbn; [|tauto].
    intros Hin. now apply Hfilter in Hin.
  - unfold reset, liveURLs. destruct (resultUrl (conversion w)) as [u|] eqn:E;
      cbn; [|tauto].
    intros Hin. apply Hfilter. split; [exact Hin|]. congruence.
Qed.

Lemma split_without_sep (s : jsstring) : ~ In DOT s -> split DOT s = [s].
Proof.
  induction s as [|c s IH]; intros H; cbn [split]; auto.
  destruct (N.eqb_spec c DOT) as [->|Hc]; [exfalso; apply H; now left|].
  rewrite IH; auto. intros Hin; apply H; now right.
Qed.

Lemma before_first_dot (s : jsstring) :
  exists base rest,
    s = base ++ rest /\ ~ In DOT base
    /\ (rest = [] \/ exists r, rest = DOT :: r)
    /\ nth_error (split DOT s) 0 = Some base.
Proof.
  induction s as [|c s (base & rest & Hs & Hb & Hr & Hn)].
  - exists [], []. repeat split; auto.
  - cbn [split]. destruct (N.eqb_spec c DOT) as [->|Hc].
    + exists [], (DOT :: s). repeat split; auto. right. now exists s.
    + exists (c :: base), rest. rewrite Hs at 1. repeat split; auto.
      * intros [E|Hin]; [congruence | contradiction].
      * destruct (split DOT s) as [|part parts]; [discriminate|].
        cbn [nth_error] in *. injection Hn as ->. reflexivity.
Qed.

(** X14.  The suggested name of a result is what stands before the
    first dot of the source name, a dot and the target format in lower
    case, for every source name: it has exactly one dot, and its
    extension is that of the target format. *)
Theorem result_name_has_one_dot (fileName : jsstring) (fmt : FileFormat) :
  exists base rest,
    fileName = base ++ rest
    /\ ~ In DOT base
    /\ (rest = [] \/ exists r, rest = DOT :: r)
    /\ resultNameOf fileName fmt = base ++ DOT :: toLowerCase (formatName fmt)
    /\ split DOT (resultNameOf fileName fmt)
       = [base; toLowerCase (formatName fmt)].
Proof.
  destruct (before_first_dot fileName) as (base & rest & Hs & Hb & Hr & Hn).
  exists base, rest. repeat split; auto.
  - unfold resultNameOf. now rewrite Hn.
  - unfold resultNameOf. rewrite Hn.
    change (js ".") with [DOT]. cbn [app].
    rewrite split_first by exact Hb. f_equal.
    apply split_without_sep. destruct fmt; vm_compute;
      intros H; repeat (destruct H as [H|H]; [discriminate H|]); exact H.
Qed.

End HandlerExtras.

Section PageSlices.
Import JsString Pdf.
Local Open Scope Q_scope.

Variable imgData : DataURL.
Variables pdfWidth pdfHeight pageHeight : Q.



End PageSlices.

Section PageSlicesOfCanvas.
Import JsString Pdf.
Local Open Scope Q_scope.



End PageSlicesOfCanvas.

(* ================================================================== *)
(** * Sessions: the fields of the state follow its status *)
(* ================================================================== *)

Section CoherenceFacts.
Import JsString RegExp Types Encoder Pdf App Invariant Coherence Examples.

#[local] Arguments encodeMD : simpl never.
#[local] Arguments encodeTXT : simpl never.
#[local] Arguments docxContent : simpl never.
#[local] Arguments renderMarkup : simpl never.
#[local] Arguments paginate : simpl never.
#[local] Arguments resultNameOf : simpl never.
#[local] Arguments getElementById : simpl never.
#[local] Arguments or_else : simpl never.

Variable P : World -> Prop.

Lemma always_advance (ans : Answers) (m : Async unit) (w : World) :
  always P ans m w ->
  match advance ans m w with
  | (w', Suspended m') => awaiting m' /\ always P ans m' w'
  | (w', Finished _) => P w'
  end.
Proof.
  revert w;
    induction m as [a|e| |k IH|f k IH|f0 fmt k IH|ms k IH|el k IH|k IH|d k IH
                    |r k IH];
    intros w H; cbn [always advance] in *;
    try assumption; try (now apply IH); split; cbn; auto.
Qed.

Lemma always_settle (ans : Answers) (m : Async unit) (w : World) :
  awaiting m -> always P ans m w -> P w /\ always P ans (settle ans m) w.
Proof.
  destruct m; cbn; tauto.
Qed.

Lemma always_resume (ans : Answers) (m : Async unit) (w : World) :
  always P ans m w ->
  match inflight (resume ans m [] w) with
  | [] => P (world (resume ans m [] w))
  | [(ans', m')] => always P ans' m' (world (resume ans m [] w))
  | _ => True
  end.
Proof.
  intros H. apply always_advance in H. unfold resume.
  destruct (advance ans m w) as [w' [[| e |]|m']]; cbn; tauto.
Qed.

End CoherenceFacts.

Section CoherenceOfSessions.
Import JsString RegExp Types Encoder Pdf App Invariant Coherence Examples.

#[local] Arguments encodeMD : simpl never.
#[local] Arguments encodeTXT : simpl never.
#[local] Arguments docxContent : simpl never.
#[local] Arguments renderMarkup : simpl never.
#[local] Arguments paginate : simpl never.
#[local] Arguments resultNameOf : simpl never.
#[local] Arguments getElementById : simpl never.
#[local] Arguments or_else : simpl never.

Lemma timeoutMessage_not_empty : timeoutMessage <> [].
Proof. vm_compute. discriminate. Qed.

Lemma docRejected_not_empty : docRejected <> [].
Proof. vm_compute. discriminate. Qed.

Lemma Coherent_handleFiles (files : option (list File)) (rnd : jsstring)
      (w : World) :
  Coherent w -> Coherent (handleFiles files rnd w).
Proof.
  intros H. unfold handleFiles.
  destruct files as [[|selectedFile others]|]; try exact H.
  destruct (endsWith _ _); unfold Coherent; cbn; repeat split.
  exists docRejected. split; [reflexivity | apply docRejected_not_empty].
Qed.

Lemma Coherent_setTargetFormat (fmt : FileFormat) (w : World) :
  Coherent w -> formatEnabled w = true -> Coherent (setTargetFormat fmt w).
Proof.
  unfold Coherent, formatEnabled, isError. cbn.
  destruct (status (conversion w)); cbn; auto;
    rewrite ?andb_false_r; discriminate.
Qed.

Lemma Coherent_reset (w : World) : Coherent (reset w).
Proof.
  unfold Coherent, reset. cbn. repeat split.
Qed.

Ltac step_always :=
  cbn [always bind tryCatch update get settled conversionFailed
       reconstructContentToHtml setTimeout html2canvas jsPDF_a4 fetch res_blob
       URL_createObjectURL];
  unfold settled;
  match goal with
  | |- _ /\ _ => split
  | |- context [match ?x with _ => _ end] => destruct x eqn:?
  end.

Lemma Coherent_startConversion (ans : Answers) (w : World) (f : AppFile) :
  Coherent w -> status (conversion w) = idle -> file w = Some f ->
  always Coherent ans startConversion w.
Proof.
  intros _ _ Hfile.
  unfold startConversion, conversionBody. cbn [always]. rewrite Hfile.
  destruct w as [wf wt wc wp wh wo wi we]. cbn in *. subst.
  repeat step_always; unfold Coherent; cbn; auto.
  all: repeat split; auto; try discriminate.
  all: try (eexists; split; [reflexivity|]).
  all: try (apply or_else_not_empty, timeoutMessage_not_empty).
  all: try reflexivity.
Qed.

(** In every session the page allows, with the attempt that is in
    flight, if any, kept to the same. *)
Lemma reachable_coherent (s : Session) :
  reachable s ->
  match inflight s with
  | [] => Coherent (world s)
  | [(ans, m)] => always Coherent ans m (world s)
  | _ => True
  end.
Proof.
  induction 1 as [|s ev s' Hr IH Hstep].
  - unfold Coherent. cbn. repeat split.
  - apply reachable_inv in Hr.
    unfold step in Hstep. destruct (blocked s) eqn:Hb; [discriminate|].
    unfold SessionInv in Hr. rewrite Hb in Hr.
    destruct (inflight s) as [|[ans m] [|x l]] eqn:Hin; [| |contradiction].
    + destruct ev as [files rnd|fmt|ans| |i].
      * destruct (showsDropZone (world s)); [|discriminate].
        injection Hstep as <-. now apply Coherent_handleFiles.
      * destruct (formatEnabled (world s)) eqn:E; [|discriminate].
        injection Hstep as <-. now apply Coherent_setTargetFormat.
      * destruct (showsStart (world s)) eqn:E; [|discriminate].
        injection Hstep as <-.
        unfold showsStart, showsDropZone in E.
        destruct (file (world s)) as [f|] eqn:Hf.
        2:{ destruct (isError (world s)); discriminate. }
        apply always_resume, Coherent_startConversion with (f := f); auto.
        apply andb_true_iff in E. destruct E as [_ E].
        destruct (status (conversion (world s))); auto; discriminate.
      * destruct (showsReset (world s)); [|discriminate].
        injection Hstep as <-. apply Coherent_reset.
      * destruct i; discriminate.
    + destruct Hr as (_ & Haw & Hsafe).
      destruct (safe_settle ans m (world s) Haw Hsafe) as [HMid _].
      destruct (Mid_offers_nothing HMid) as (E1 & E2 & E3 & E4).
      destruct ev as [files rnd|fmt|ans'| |i];
        rewrite ?E1, ?E2, ?E3, ?E4 in Hstep; try discriminate.
      destruct i as [|[|i]]; try discriminate.
      injection Hstep as <-.
      apply always_resume. now apply always_settle.
Qed.

(** X16.  In every session the page allows the fields of the state
    follow its status: [idle] has progress 0, no error, no result and
    an empty preview; [converting] has progress 10 or 50, a file and no
    result; [completed] has progress 100, a result URL, a file and the
    name made of that file's name and the target format selected;
    [error] has progress 0, no result and a message that is not empty;
    [uploading] is never entered. *)
Theorem state_fields_follow_status (s : Session) :
  reachable s -> Coherent (world s).
Proof.
  intros Hr. pose proof (reachable_coherent Hr) as Hc.
  apply reachable_inv in Hr. unfold SessionInv in Hr.
  destruct (inflight s) as [|[ans m] [|x l]]; [exact Hc| |contradiction].
  destruct Hr as (_ & Haw & _).
  now apply (always_settle Coherent ans m (world s)).
Qed.

Lemma state_fields_follow_status_witness :
  reachable (sessionAfter finished)
  /\ status (conversion (world (sessionAfter finished))) = completed
  /\ Coherent (world (sessionAfter finished)).
Proof.
  assert (Hr : reachable (sessionAfter finished)).
  { apply (run_reachable finished reach_initial). vm_compute. reflexivity. }
  split; [exact Hr|]. split; [reflexivity|].
  exact (state_fields_follow_status Hr).
Defined.

End CoherenceOfSessions.

(* ================================================================== *)
(** * The image targets *)
(* ================================================================== *)

Section ImageExtras.
Import JsString RegExp Types Encoder Pdf App Trace Examples.

#[local] Arguments renderMarkup : simpl never.
#[local] Arguments resultNameOf : simpl never.
#[local] Arguments getElementById : simpl never.

Ltac run_both :=
  cbn [exec fetched bind tryCatch update get settled conversionFailed
       App.reconstructContentToHtml setTimeout html2canvas jsPDF_a4 fetch
       res_blob URL_createObjectURL].

(** X17.  With the target JPG or PNG, the container in place, a canvas
    from the snapshot and a response with a body, the attempt ends in
    [completed]; the payload behind the new object URL is the body of
    the response; the only thing fetched is the data URL of the canvas,
    as [image/jpeg] for JPG and as [image/png] for PNG, at quality 0.9;
    the PDF library is not needed. *)
Theorem image_conversion_completes (ans : Answers) (w : World) (f : AppFile)
        (htmlContent : jsstring) (canvas : Canvas) (res : Response)
        (body : Blob) :
  file w = Some f ->
  targetFormat w = JPG \/ targetFormat w = PNG ->
  ans_reconstructContentToHtml ans = inr htmlContent ->
  hiddenRender w <> None ->
  ans_html2canvas ans = inr canvas ->
  ans_fetch ans = inr res ->
  ans_blob ans = inr body ->
  let w' := fst (exec ans startConversion w) in
  snd (exec ans startConversion w) = Returned
  /\ conversion w'
     = mkConversion completed 100 None (Some (issued w))
                    (Some (resultNameOf (name f) (targetFormat w)))
  /\ objectURLs w' = (issued w, body) :: objectURLs w
  /\ fetched ans startConversion w
     = [toDataURL canvas
                  match targetFormat w with
                  | JPG => js "image/jpeg"
                  | _ => js "image/png"
                  end
                  (9 # 10)].
Proof.
  intros Hfile Hfmt Hans Hc Hcanvas Hfetch Hblob.
  unfold startConversion, conversionBody. cbn [exec fetched]. rewrite Hfile.
  run_both. rewrite Hans. run_both.
  destruct (hiddenRender w) as [c|] eqn:Ec; [|congruence].
  cbn [hiddenRender setConversion setPreviewHtml logExtractorCall].
  rewrite Ec. run_both.
  destruct Hfmt as [-> | ->]; run_both;
    rewrite render_root_found by (cbn; congruence); run_both;
    rewrite Hcanvas; run_both; rewrite Hfetch; run_both;
    rewrite Hblob; cbn; repeat split.
Qed.

Lemma image_conversion_completes_witness :
  let w := worldAfter [SelectFiles (Some [notes_txt]) (js "k3j9x0a1b");
                       ClickFormat PNG] in
  file w = Some ExtractorExamples.notes
  /\ objectURLs (fst (exec ExtractorExamples.answersImage startConversion w))
     = [(0%nat, ExtractorExamples.pngBody)].
Proof.
  intros w.
  assert (Hfile : file w = Some ExtractorExamples.notes)
    by (vm_compute; reflexivity).
  assert (Hfmt : targetFormat w = JPG \/ targetFormat w = PNG)
    by (right; vm_compute; reflexivity).
  assert (Hc : hiddenRender w <> None) by (vm_compute; discriminate).
  assert (Hurls : objectURLs w = []) by (vm_compute; reflexivity).
  assert (Hissued : issued w = 0%nat) by (vm_compute; reflexivity).
  split; [exact Hfile|].
  clearbody w.
  destruct (@image_conversion_completes
              ExtractorExamples.answersImage w ExtractorExamples.notes
              (js "<p>Hello</p>") ExtractorExamples.snapshot
              (mkResponse (toDataURL ExtractorExamples.snapshot
                                     (js "image/png") (9 # 10)))
              ExtractorExamples.pngBody
              Hfile Hfmt eq_refl Hc eq_refl eq_refl eq_refl)
    as (_ & _ & Hobj & _).
  now rewrite Hobj, Hurls, Hissued.
Defined.

End ImageExtras.
